(** * ZipCodeBuffer / calculateStateExtremes: a shallow embedding

    Embedding of [src/Project1/ZipCodeBuffer.cpp] (the CSV record reader)
    and of [src/Project1/main.cpp] (the per-state extremes aggregation and
    the program entry point).

    Modelling choices:
    - a C++ [std::string] is a [string]; character scans work on its
      [list ascii] view;
    - an [int] is a [Z] kept in the 32-bit range by [stoi]'s range check;
    - a [double] is a finite value (the rational it denotes, a binary64
      number), an infinity, or NaN; [std::stod] rounds to the nearest
      binary64 number; the sign of zero is not kept (no comparison of
      the code tells [-0.0] from [0.0]); [<] and [==] are IEEE's, false
      as soon as NaN is involved;
    - a text file is the list of its lines (without the newline
      characters); an [ifstream] is the file's lines, the lines not yet
      extracted, and the fail bit;
    - the file system is a function from a path to the file's lines, or
      [None] when the file cannot be opened. *)

From Stdlib Require Import ZArith QArith Qabs List Bool Ascii String Lia.
Import ListNotations.
Open Scope Z_scope.

(* ------------------------------------------------------------------ *)
(** ** Characters and trim *)

Definition chr (n : nat) : ascii := ascii_of_nat n.

Definition quote_c : ascii := chr 34.
Definition comma_c : ascii := chr 44.

(** The characters of [" \t\r\n"] used by [ZipCodeBuffer::trim]. *)
Definition is_trim_ws (c : ascii) : bool :=
  let n := nat_of_ascii c in
  (n =? 32)%nat || (n =? 9)%nat || (n =? 13)%nat || (n =? 10)%nat.

(** [isspace] in the C locale, used by [strtol]/[strtod]. *)
Definition is_c_space (c : ascii) : bool :=
  let n := nat_of_ascii c in
  (n =? 32)%nat || ((9 <=? n)%nat && (n <=? 13)%nat).

Fixpoint drop_ws (cs : list ascii) : list ascii :=
  match cs with
  | [] => []
  | c :: cs' => if is_trim_ws c then drop_ws cs' else cs
  end.

(** [ZipCodeBuffer::trim]: [find_first_not_of] / [find_last_not_of] over
    [" \t\r\n"], then [substr]. *)
Definition trim (str : string) : string :=
  string_of_list_ascii (rev (drop_ws (rev (drop_ws (list_ascii_of_string str))))).

(* ------------------------------------------------------------------ *)
(** ** splitCSV *)

(** The loop of [ZipCodeBuffer::splitCSV]: [inQuotes], [currentField]
    and [fields] are the loop's variables; a character is appended at the
    end of [currentField] and a field at the end of [fields]. *)
Fixpoint splitCSV_loop (line : list ascii) (inQuotes : bool)
    (currentField : list ascii) (fields : list (list ascii)) : list (list ascii) :=
  match line with
  | [] => fields ++ [currentField]
  | c :: rest =>
      if Ascii.eqb c quote_c then
        splitCSV_loop rest (negb inQuotes) currentField fields
      else if Ascii.eqb c comma_c && negb inQuotes then
        splitCSV_loop rest inQuotes [] (fields ++ [currentField])
      else
        splitCSV_loop rest inQuotes (currentField ++ [c]) fields
  end.

Definition splitCSV (line : string) : list string :=
  map string_of_list_ascii (splitCSV_loop (list_ascii_of_string line) false [] []).

(* ------------------------------------------------------------------ *)
(** ** Numeric conversions: [std::stoi] and [std::stod] *)

Definition digit_of (c : ascii) : option Z :=
  let n := nat_of_ascii c in
  if (48 <=? n)%nat && (n <=? 57)%nat then Some (Z.of_nat n - 48) else None.

Fixpoint skip_space (cs : list ascii) : list ascii :=
  match cs with
  | [] => []
  | c :: cs' => if is_c_space c then skip_space cs' else cs
  end.

(** optional sign: [true] when negative *)
Definition read_sign (cs : list ascii) : bool * list ascii :=
  match cs with
  | c :: cs' =>
      if (nat_of_ascii c =? 45)%nat then (true, cs')
      else if (nat_of_ascii c =? 43)%nat then (false, cs')
      else (false, cs)
  | [] => (false, cs)
  end.

(** longest prefix of decimal digits: its value, its length, the rest *)
Fixpoint read_digits (cs : list ascii) (acc : Z) (n : nat) : Z * nat * list ascii :=
  match cs with
  | c :: cs' =>
      match digit_of c with
      | Some d => read_digits cs' (10 * acc + d) (S n)
      | None => (acc, n, cs)
      end
  | [] => (acc, n, cs)
  end.

Definition INT_MIN : Z := - 2 ^ 31.
Definition INT_MAX : Z := 2 ^ 31 - 1.

(** [std::stoi] (base 10, [strtol]): leading white space, an optional
    sign, the longest digit prefix; no digit throws [invalid_argument] and
    a value outside [int] throws [out_of_range]: both are [None]. Trailing
    characters after the digits are ignored, as by [strtol]. *)
Definition stoi (s : string) : option Z :=
  let cs := skip_space (list_ascii_of_string s) in
  let '(neg, cs1) := read_sign cs in
  let '(v, nd, _) := read_digits cs1 0 0 in
  if (nd =? 0)%nat then None
  else
    let z := if neg then - v else v in
    if (INT_MIN <=? z) && (z <=? INT_MAX) then Some z else None.

(** [DBL_MAX] = (2 - 2^-52) * 2^1023, and [DBL_MIN] = 2^-1022. *)
Definition DBL_MAX : Q := inject_Z (2 ^ 1024 - 2 ^ 971).
Definition DBL_LOWEST : Q := Qopp DBL_MAX.
Definition DBL_MIN : Q := Qmake 1 (Z.to_pos (2 ^ 1022)).

(** [x < y] on rationals *)
Definition Qltb (x y : Q) : bool := negb (Qle_bool y x).

(** A [double]: a finite value (the rational it denotes; [0.0] and
    [-0.0] are both [Fin 0]), an infinity, or NaN. *)
Inductive double :=
| Fin (q : Q)
| PInf
| NInf
| NaN.

(** [x < y] on doubles: false as soon as one side is NaN. *)
Definition dlt (x y : double) : bool :=
  match x, y with
  | Fin a, Fin b => Qltb a b
  | NInf, Fin _ | NInf, PInf | Fin _, PInf => true
  | _, _ => false
  end.

(** [x == y] on doubles: false as soon as one side is NaN. *)
Definition deq (x y : double) : bool :=
  match x, y with
  | Fin a, Fin b => Qeq_bool a b
  | PInf, PInf | NInf, NInf => true
  | _, _ => false
  end.

(** A finite double, within [[DBL_LOWEST, DBL_MAX]]. *)
Definition dfinite (x : double) : bool :=
  match x with
  | Fin q => Qle_bool DBL_LOWEST q && Qle_bool q DBL_MAX
  | _ => false
  end.

Definition pow2q (e : Z) : Q :=
  if 0 <=? e then inject_Z (2 ^ e) else Qmake 1 (Z.to_pos (2 ^ (- e))).

Definition qpow10 (e : Z) : Q :=
  if 0 <=? e then inject_Z (10 ^ e) else Qmake 1 (Z.to_pos (10 ^ (- e))).

(** [m * 2^e] *)
Definition scale2 (m e : Z) : Q := Qmult (inject_Z m) (pow2q e).

(** The integer nearest to [n / d] ([d > 0]), ties to even. *)
Definition round_div (n d : Z) : Z :=
  let q := n / d in
  match Z.compare (2 * (n mod d)) d with
  | Lt => q
  | Gt => q + 1
  | Eq => if Z.even q then q else q + 1
  end.

(** [n / d * 2^-E] rounded to an integer, and whether that is exact
    ([n, d > 0]). *)
Definition round_scaled (n d E : Z) : Z * bool :=
  if 0 <=? E then (round_div n (d * 2 ^ E), n mod (d * 2 ^ E) =? 0)
  else (round_div (n * 2 ^ (- E)) d, (n * 2 ^ (- E)) mod d =? 0).

(** [floor (log2 (n / d))] ([n, d > 0]). *)
Definition floor_log2 (n d : Z) : Z :=
  let e := Z.log2 n - Z.log2 d in
  if (if 0 <=? e then d * 2 ^ e <=? n else d <=? n * 2 ^ (- e)) then e else e - 1.

(** Rounding of [v] to binary64 (53-bit significand, least exponent
    -1074; to nearest, ties to even), with the sign [neg] applied. [None]
    when [strtod] sets [ERANGE]: the rounded magnitude exceeds [DBL_MAX]
    (overflow), or the result is tiny and inexact (underflow; tininess is
    detected after rounding, as on x86). *)
Definition to_double (neg : bool) (v : Q) : option double :=
  let n := Qnum v in
  let d := Zpos (Qden v) in
  if n <=? 0 then Some (Fin 0)
  else
    let k := floor_log2 n d in
    let E := Z.max (k - 52) (-1074) in
    let '(m, exact) := round_scaled n d E in
    let tiny := Qltb (scale2 (fst (round_scaled n d (k - 52))) (k - 52)) DBL_MIN in
    let r := scale2 m E in
    if (tiny && negb exact) || Qltb DBL_MAX r then None
    else Some (Fin (if neg then Qopp r else r)).

(** [c] in lower case ([tolower] in the C locale). *)
Definition lower (c : ascii) : ascii :=
  let n := nat_of_ascii c in
  if (65 <=? n)%nat && (n <=? 90)%nat then chr (n + 32) else c.

(** [cs] starts with [p], without regard to case. *)
Fixpoint prefix_ci (p cs : list ascii) : bool :=
  match p, cs with
  | [], _ => true
  | c :: p', d :: cs' => Ascii.eqb c (lower d) && prefix_ci p' cs'
  | _ :: _, [] => false
  end.

Definition is_char (n : nat) (c : ascii) : bool := (nat_of_ascii (lower c) =? n)%nat.

Definition hex_digit_of (c : ascii) : option Z :=
  match digit_of c with
  | Some d => Some d
  | None =>
      let n := nat_of_ascii (lower c) in
      if (97 <=? n)%nat && (n <=? 102)%nat then Some (Z.of_nat n - 87) else None
  end.

(** longest prefix of hexadecimal digits: its value, its length, the rest *)
Fixpoint read_hex_digits (cs : list ascii) (acc : Z) (n : nat) : Z * nat * list ascii :=
  match cs with
  | c :: cs' =>
      match hex_digit_of c with
      | Some d => read_hex_digits cs' (16 * acc + d) (S n)
      | None => (acc, n, cs)
      end
  | [] => (acc, n, cs)
  end.

(** exponent part: the marker ([e] or [p], either case), an optional sign
    and decimal digits; [0] when absent or when no digit follows *)
Definition read_exponent (mark : nat) (cs : list ascii) : Z :=
  match cs with
  | c :: cs' =>
      if is_char mark c then
        let '(neg, cs1) := read_sign cs' in
        let '(v, nd, _) := read_digits cs1 0 0 in
        if (nd =? 0)%nat then 0 else if neg then - v else v
      else 0
  | [] => 0
  end.

(** Digits, an optional ['.'] and digits, read with [read]. *)
Definition read_mantissa (read : list ascii -> Z -> nat -> Z * nat * list ascii)
    (cs : list ascii) : Z * nat * Z * nat * list ascii :=
  let '(iv, ni, cs2) := read cs 0 0%nat in
  let '(fv, nf, cs3) :=
    match cs2 with
    | c :: cs' => if (nat_of_ascii c =? 46)%nat then read cs' 0 0%nat else (0, 0%nat, cs2)
    | [] => (0, 0%nat, cs2)
    end in
  (iv, ni, fv, nf, cs3).

(** The magnitude of a decimal subject sequence: digits with an optional
    ['.'] (one digit at least), and an optional exponent; [None] when no
    digit. *)
Definition dec_value (cs : list ascii) : option Q :=
  let '(iv, ni, fv, nf, rest) := read_mantissa read_digits cs in
  if ((ni + nf) =? 0)%nat then None
  else
    Some (Qmult (inject_Z (iv * 10 ^ Z.of_nat nf + fv))
                (qpow10 (read_exponent 101 rest - Z.of_nat nf))).

(** The magnitude of a hexadecimal subject sequence, [cs] following
    ["0x"]: hexadecimal digits with an optional ['.'], and an optional
    binary exponent. Without a hexadecimal digit the subject sequence is
    the ["0"] alone. *)
Definition hex_value (cs : list ascii) : Q :=
  let '(iv, ni, fv, nf, rest) := read_mantissa read_hex_digits cs in
  if ((ni + nf) =? 0)%nat then 0
  else
    Qmult (inject_Z (iv * 16 ^ Z.of_nat nf + fv))
          (pow2q (read_exponent 112 rest - 4 * Z.of_nat nf)).

(** [std::stod] ([strtod], C locale): white space, an optional sign,
    then [inf] / [infinity] or [nan] / [nan(...)] in any case, a
    hexadecimal number after ["0x"], or a decimal number; the value is
    rounded to a double. No conversion throws [invalid_argument] and
    [ERANGE] throws [out_of_range]: both are [None]. Characters after the
    number are ignored. *)
Definition stod (s : string) : option double :=
  let cs := skip_space (list_ascii_of_string s) in
  let '(neg, cs1) := read_sign cs in
  if prefix_ci (list_ascii_of_string "inf") cs1 then Some (if neg then NInf else PInf)
  else if prefix_ci (list_ascii_of_string "nan") cs1 then Some NaN
  else
    let hex := match cs1 with
               | z :: x :: cs2 =>
                   if (nat_of_ascii z =? 48)%nat && is_char 120 x then Some cs2 else None
               | _ => None
               end in
    match hex with
    | Some cs2 => to_double neg (hex_value cs2)
    | None => match dec_value cs1 with Some v => to_double neg v | None => None end
    end.

(* ------------------------------------------------------------------ *)
(** ** ZipCodeRecord and parseLine *)

Record ZipCodeRecord := mkRecord {
  zipCode : Z;
  placeName : string;
  state : string;
  county : string;
  latitude : double;
  longitude : double
}.

(** [ZipCodeRecord::ZipCodeRecord()] *)
Definition default_record : ZipCodeRecord :=
  mkRecord 0 EmptyString EmptyString EmptyString (Fin 0) (Fin 0).

(** [ZipCodeBuffer::parseLine]: the record is an in/out parameter that
    the code assigns field by field, so a conversion failing after the
    first assignments leaves it partly written. *)
Definition parseLine (line : string) (record : ZipCodeRecord) : bool * ZipCodeRecord :=
  let fields := splitCSV line in
  if negb (List.length fields =? 6)%nat then (false, record)
  else
    match stoi (trim (nth 0 fields EmptyString)) with
    | None => (false, record)
    | Some z =>
        let r1 := mkRecord z (trim (nth 1 fields EmptyString)) (trim (nth 2 fields EmptyString))
                    (trim (nth 3 fields EmptyString)) (latitude record) (longitude record) in
        match stod (trim (nth 4 fields EmptyString)) with
        | None => (false, r1)
        | Some lat =>
            let r2 := mkRecord (zipCode r1) (placeName r1) (state r1) (county r1)
                        lat (longitude r1) in
            match stod (trim (nth 5 fields EmptyString)) with
            | None => (false, r2)
            | Some lon =>
                (true, mkRecord (zipCode r2) (placeName r2) (state r2) (county r2)
                         (latitude r2) lon)
            end
        end
    end.

(* ------------------------------------------------------------------ *)
(** ** The input stream *)

(** An open [ifstream] on a text file: the file's lines, the lines not yet
    extracted, and the fail bit. *)
Record Stream := mkStream {
  contents : list string;
  remaining : list string;
  failbit : bool
}.

(** [std::getline]: fails (and sets the fail bit) when the fail bit is
    already set or no line is left. *)
Definition getline (s : Stream) : option string * Stream :=
  if failbit s then (None, s)
  else
    match remaining s with
    | [] => (None, mkStream (contents s) [] true)
    | l :: rest => (Some l, mkStream (contents s) rest false)
    end.

(** [clear()] followed by [seekg(0, ios::beg)] *)
Definition rewind (s : Stream) : Stream := mkStream (contents s) (contents s) false.

(** The file system: a path's lines, or [None] when it cannot be opened. *)
Definition FileSystem := string -> option (list string).

(* ------------------------------------------------------------------ *)
(** ** ZipCodeBuffer *)

(** The members of [ZipCodeBuffer]; [fileStream] is [None] when the
    stream is not open. *)
Record ZipCodeBuffer := mkBuffer {
  fileStream : option Stream;
  filename : string;
  headerSkipped : bool;
  recordCount : Z
}.

(** [ZipCodeBuffer::ZipCodeBuffer()] *)
Definition new_buffer : ZipCodeBuffer := mkBuffer None EmptyString false 0.

Definition set_stream (b : ZipCodeBuffer) (s : Stream) : ZipCodeBuffer :=
  mkBuffer (Some s) (filename b) (headerSkipped b) (recordCount b).

(** [ZipCodeBuffer::isOpen] *)
Definition isOpen (b : ZipCodeBuffer) : bool :=
  match fileStream b with Some _ => true | None => false end.

(** [ZipCodeBuffer::close] *)
Definition close (b : ZipCodeBuffer) : ZipCodeBuffer :=
  mkBuffer None EmptyString false 0.

(** [ZipCodeBuffer::getFilename] *)
Definition getFilename (b : ZipCodeBuffer) : string := filename b.

(** [ZipCodeBuffer::getRecordCount] *)
Definition getRecordCount (b : ZipCodeBuffer) : Z := recordCount b.

(** [ZipCodeBuffer::open]: close, store the name, open the stream, read
    the header line. *)
Definition open (fs : FileSystem) (b : ZipCodeBuffer) (csvFilename : string)
    : bool * ZipCodeBuffer :=
  let b1 := close b in
  let b2 := mkBuffer (fileStream b1) csvFilename (headerSkipped b1) (recordCount b1) in
  match fs csvFilename with
  | None => (false, b2)
  | Some lines =>
      let s := mkStream lines lines false in
      match getline s with
      | (Some _, s') =>
          (true, mkBuffer (Some s') csvFilename true 0)
      | (None, s') =>
          (false, close (set_stream b2 s'))
      end
  end.

(** [ZipCodeBuffer::reset] *)
Definition reset (b : ZipCodeBuffer) : bool * ZipCodeBuffer :=
  match fileStream b with
  | None => (false, b)
  | Some s =>
      match getline (rewind s) with
      | (None, s') => (false, set_stream b s')
      | (Some _, s') => (true, mkBuffer (Some s') (filename b) (headerSkipped b) 0)
      end
  end.

(** [line.empty() || trim(line).empty()] *)
Definition blank (line : string) : bool :=
  String.eqb line EmptyString || String.eqb (trim line) EmptyString.

(** [ZipCodeBuffer::readRecord]. The recursive call on a blank line is
    bounded by [fuel]; [readRecord] supplies one more than the number of
    lines left, which every call consumes at least one of. *)
Fixpoint readRecord_fuel (fuel : nat) (b : ZipCodeBuffer) (record : ZipCodeRecord)
    : bool * ZipCodeRecord * ZipCodeBuffer :=
  match fileStream b with
  | None => (false, record, b)
  | Some s =>
      match getline s with
      | (Some line, s') =>
          let b' := set_stream b s' in
          if blank line then
            match fuel with
            | O => (false, record, b')
            | S fuel' => readRecord_fuel fuel' b' record
            end
          else
            match parseLine line record with
            | (true, record') =>
                (true, record',
                 mkBuffer (fileStream b') (filename b') (headerSkipped b') (recordCount b' + 1))
            | (false, record') => (false, record', b')
            end
      | (None, s') => (false, record, set_stream b s')
      end
  end.

Definition lines_left (b : ZipCodeBuffer) : nat :=
  match fileStream b with Some s => List.length (remaining s) | None => 0 end.

Definition readRecord (b : ZipCodeBuffer) (record : ZipCodeRecord)
    : bool * ZipCodeRecord * ZipCodeBuffer :=
  readRecord_fuel (S (lines_left b)) b record.

(** The loop [while (readRecord(record)) records.push_back(record);],
    bounded like [readRecord]. *)
Fixpoint gather_loop (fuel : nat) (b : ZipCodeBuffer) (record : ZipCodeRecord)
    (records : list ZipCodeRecord) : list ZipCodeRecord * ZipCodeBuffer :=
  match fuel with
  | O => (records, b)
  | S fuel' =>
      match readRecord b record with
      | (true, record', b') => gather_loop fuel' b' record' (records ++ [record'])
      | (false, _, b') => (records, b')
      end
  end.

(** [ZipCodeBuffer::gatherAllRecords]: reset, read until [readRecord]
    returns false, reset again. *)
Definition gatherAllRecords (b : ZipCodeBuffer) : list ZipCodeRecord * ZipCodeBuffer :=
  let b1 := snd (reset b) in
  let '(records, b2) := gather_loop (S (lines_left b1)) b1 default_record [] in
  (records, snd (reset b2)).

(* ------------------------------------------------------------------ *)
(** ** StateExtremes and calculateStateExtremes (main.cpp) *)

Record StateExtremes := mkExtremes {
  easternmost : Z;
  westernmost : Z;
  northernmost : Z;
  southernmost : Z;
  minLongitude : double;
  maxLongitude : double;
  maxLatitude : double;
  minLatitude : double
}.

(** [StateExtremes::StateExtremes()]: codes 0, [numeric_limits<double>::max()]
    for the two minima, [lowest()] for the two maxima. *)
Definition default_extremes : StateExtremes :=
  mkExtremes 0 0 0 0 (Fin DBL_MAX) (Fin DBL_LOWEST) (Fin DBL_LOWEST) (Fin DBL_MAX).

(** [smallerZipWins] *)
Definition smallerZipWins (candidate current : Z) : bool :=
  if current =? 0 then true else candidate <? current.

(** One minimum block of [calculateStateExtremes] (EASTERNMOST,
    SOUTHERNMOST): the stored value and code, the record's coordinate and
    code; the new value and code. *)
Definition min_block (v : double) (code : Z) (x : double) (zip : Z) : double * Z :=
  if dlt x v then (x, zip)
  else if deq x v then (v, if smallerZipWins zip code then zip else code)
  else (v, code).

(** One maximum block (WESTERNMOST, NORTHERNMOST). *)
Definition max_block (v : double) (code : Z) (x : double) (zip : Z) : double * Z :=
  if dlt v x then (x, zip)
  else if deq x v then (v, if smallerZipWins zip code then zip else code)
  else (v, code).

(** The body of the loop of [calculateStateExtremes] on one state's entry. *)
Definition update_extremes (record : ZipCodeRecord) (e : StateExtremes) : StateExtremes :=
  let '(minLon, east) := min_block (minLongitude e) (easternmost e) (longitude record) (zipCode record) in
  let '(maxLon, west) := max_block (maxLongitude e) (westernmost e) (longitude record) (zipCode record) in
  let '(maxLat, north) := max_block (maxLatitude e) (northernmost e) (latitude record) (zipCode record) in
  let '(minLat, south) := min_block (minLatitude e) (southernmost e) (latitude record) (zipCode record) in
  mkExtremes east west north south minLon maxLon maxLat minLat.

(** [std::map<string, StateExtremes>]: an association list sorted by key
    ([std::string]'s [<] compares characters as unsigned, like
    [String.compare]). *)
Definition StateMap := list (string * StateExtremes).

(** [StateExtremes& extremes = stateMap[state];] followed by the update of
    [extremes]: the entry is created with [default_extremes] if absent. *)
Fixpoint map_update (k : string) (f : StateExtremes -> StateExtremes) (m : StateMap) : StateMap :=
  match m with
  | [] => [(k, f default_extremes)]
  | (k', v) :: m' =>
      match String.compare k k' with
      | Eq => (k', f v) :: m'
      | Lt => (k, f default_extremes) :: m
      | Gt => (k', v) :: map_update k f m'
      end
  end.

Fixpoint map_find (k : string) (m : StateMap) : option StateExtremes :=
  match m with
  | [] => None
  | (k', v) :: m' => if String.eqb k k' then Some v else map_find k m'
  end.

(** [calculateStateExtremes]: the loop over [records], in order. *)
Definition calculateStateExtremes (records : list ZipCodeRecord) : StateMap :=
  fold_left (fun m record => map_update (state record) (update_extremes record) m) records [].

(* ------------------------------------------------------------------ *)
(** ** printStateExtremesTable (main.cpp) *)

(** The output of [cout << n] for an [int] [n]: its decimal digits,
    after a minus sign when negative. [dec_digits_fuel] peels the last
    digit off; its fuel, one more than the number of binary digits,
    always suffices. *)
Definition digit_char (d : Z) : ascii := ascii_of_nat (48 + Z.to_nat d).

Fixpoint dec_digits_fuel (fuel : nat) (n : Z) : list ascii :=
  match fuel with
  | O => []
  | S f => (if n <? 10 then [] else dec_digits_fuel f (n / 10)) ++ [digit_char (n mod 10)]
  end.

Definition dec_digits (n : Z) : list ascii := dec_digits_fuel (S (Z.to_nat (Z.log2 n))) n.

Definition int_text (z : Z) : list ascii :=
  if z <? 0 then chr 45 :: dec_digits (- z) else dec_digits z.

Definition space_c : ascii := chr 32.
Definition zero_c : ascii := chr 48.

(** [setw(w)] with [setfill(fill)] under [cout << left]: the text, then
    fill characters up to width [w]; a longer text is not cut. *)
Definition setw_left (w : nat) (fill : ascii) (s : list ascii) : list ascii :=
  s ++ repeat fill (w - List.length s).

(** [setfill('0') << setw(5) << code] *)
Definition zip_field (code : Z) : list ascii := setw_left 5 zero_c (int_text code).

(** [setfill(' ') << setw(10) << " "] *)
Definition gap : list ascii := setw_left 10 space_c [space_c].

(** One row of the table, for the entry [(state, extremes)]. *)
Definition table_row (state : string) (e : StateExtremes) : string :=
  string_of_list_ascii
    (setw_left 8 space_c (list_ascii_of_string state) ++
     zip_field (easternmost e) ++ gap ++
     zip_field (westernmost e) ++ gap ++
     zip_field (northernmost e) ++ gap ++
     zip_field (southernmost e)).

Definition table_header : string :=
  string_of_list_ascii
    (setw_left 8 space_c (list_ascii_of_string "State") ++
     setw_left 15 space_c (list_ascii_of_string "Easternmost") ++
     setw_left 15 space_c (list_ascii_of_string "Westernmost") ++
     setw_left 15 space_c (list_ascii_of_string "Northernmost") ++
     setw_left 15 space_c (list_ascii_of_string "Southernmost")).

(** [printStateExtremesTable]: the lines written to [cout] (each ended
    by [endl]), the entries in the map's key order. *)
Definition printStateExtremesTable (stateMap : StateMap) : list string :=
  table_header :: string_of_list_ascii (repeat (chr 45) 68) ::
  map (fun entry => table_row (fst entry) (snd entry)) stateMap.

(* ------------------------------------------------------------------ *)
(** ** main *)

(** The exit status of [main] on [argv] (program name included); the
    printed table is not modelled. *)
Definition main (fs : FileSystem) (argv : list string) : Z :=
  if negb (List.length argv =? 2)%nat then 1
  else
    let fname := nth 1 argv EmptyString in
    let '(ok, buffer) := open fs new_buffer fname in
    if negb ok then 2
    else
      let '(allRecords, buffer') := gatherAllRecords buffer in
      match allRecords with
      | [] => let _ := close buffer' in 3
      | _ :: _ =>
          let _ := calculateStateExtremes allRecords in
          let _ := close buffer' in 0
      end.

(* ================================================================== *)
(** * Concrete inputs *)

Definition qstr (s : string) : string := String quote_c (s ++ String quote_c EmptyString)%string.

(** The line ["10001","New York, NY","NY","New York",40.7128,-74.0060]. *)
Definition ny_line : string :=
  (qstr "10001" ++ "," ++ qstr "New York, NY" ++ "," ++ qstr "NY" ++ ","
   ++ qstr "New York" ++ ",40.7128,-74.0060")%string.

(** A file whose second data line follows a malformed one. *)
Definition skip_file : list string :=
  ["zip,place,state,county,lat,lon"; "not a record"; "10001,A,NY,B,40.71,-74.01"]%string.

Definition fs_of (path : string) (lines : list string) : FileSystem :=
  fun p => if String.eqb p path then Some lines else None.

Definition opened (path : string) (lines : list string) : ZipCodeBuffer :=
  snd (open (fs_of path lines) new_buffer path).

(** Two records of one state on the same coordinates, codes 0 and 5. *)
Definition rec_zero : ZipCodeRecord := mkRecord 0 "A" "NY" "B" (Fin 1) (Fin 1).
Definition rec_five : ZipCodeRecord := mkRecord 5 "A" "NY" "B" (Fin 1) (Fin 1).

(** An open buffer with no line left, and one at a five-field line. *)
Definition buffer_at (lines : list string) : ZipCodeBuffer :=
  mkBuffer (Some (mkStream ("hdr"%string :: lines) lines false)) "f.csv" true 0.

Definition five_fields : string := "10001,A,NY,B,40.71"%string.

(** Specification side of the splitting claim: fields joined back with
    commas, and the number of commas preceded by an even number of quote
    characters. *)
Fixpoint join_fields (fs : list (list ascii)) : list ascii :=
  match fs with
  | [] => []
  | [f] => f
  | f :: fs' => f ++ comma_c :: join_fields fs'
  end.

Definition is_quote (c : ascii) : bool := Ascii.eqb c quote_c.

Definition count_quotes (l : list ascii) : nat := List.length (filter is_quote l).

(** [cnt_unquoted q line]: the indices [i] of [line] holding a comma with
    an even number of quotes before it (odd when [q] is set). *)
Definition cnt_unquoted (q : bool) (line : list ascii) : nat :=
  List.length
    (filter (fun i => Ascii.eqb (nth i line quote_c) comma_c
                      && negb (xorb q (Nat.odd (count_quotes (firstn i line)))))
            (seq 0 (List.length line))).

(** Every comma of the piece [p] has an odd number of quote characters
    before it in [p]. *)
Definition commas_quoted (p : list ascii) : bool :=
  forallb (fun i => negb (Ascii.eqb (nth i p quote_c) comma_c)
                    || Nat.odd (count_quotes (firstn i p)))
          (seq 0 (List.length p)).

(** The pieces of the line [a,"b,c"]. *)
Definition ab_pieces : list (list ascii) :=
  [["a"%char]; [quote_c; "b"%char; comma_c; "c"%char; quote_c]].
(** A file with one record after its header, and that record. *)
Definition good_line : string := "10001,A,NY,B,40.71,-74.01"%string.
Definition good_file : list string := ["zip,place,state,county,lat,lon"%string; good_line].
(** Its coordinates are 40.71 and -74.01 rounded to the nearest doubles. *)
Definition good_record : ZipCodeRecord :=
  mkRecord 10001 "A" "NY" "B" (Fin (5729423150945403 # 140737488355328))
    (Fin ((-5207990756588913) # 70368744177664)).

(** A stored entry of state NY with code 10023 at longitude -74, and a
    record of code 10005 at the same longitude. *)
Definition ext_10023 : StateExtremes :=
  mkExtremes 10023 10023 10023 10023 (Fin (-74)) (Fin (-74)) (Fin 40) (Fin 40).
Definition rec_10005 : ZipCodeRecord := mkRecord 10005 "A" "NY" "B" (Fin 40) (Fin (-74)).

(** A file with two records of state NY at longitude [inf], codes 10023
    and 10005. *)
Definition inf_file : list string :=
  ["zip,place,state,county,lat,lon"; "10023,A,NY,B,40.7,inf"; "10005,C,NY,D,40.7,inf"]%string.

(** [cs] does not start with a decimal digit. *)
Definition no_digit_first (cs : list ascii) : Prop :=
  match cs with c :: _ => digit_of c = None | [] => True end.

(** A line whose code field is digits followed by letters, and a file
    holding it. *)
Definition prefix_line : string := "12abc,A,NY,B,1,2"%string.
Definition prefix_file : list string := ["zip,place,state,county,lat,lon"%string; prefix_line].

(** Specification side of the bulk read: the records of the non-blank
    lines, in order, up to the first non-blank line that does not parse. *)
Fixpoint expected_records (lines : list string) : list ZipCodeRecord :=
  match lines with
  | [] => []
  | l :: rest =>
      if blank l then expected_records rest
      else
        match parseLine l default_record with
        | (true, r) => r :: expected_records rest
        | (false, _) => []
        end
  end.

(** The keys of a [StateMap] in strictly increasing [String.compare]
    order, as [std::map] keeps them. *)
Fixpoint keys_sorted (m : StateMap) : bool :=
  match m with
  | [] => true
  | (k, _) :: m' => forallb (fun p => String.ltb k (fst p)) m' && keys_sorted m'
  end.

(** The records of one state, in input order. *)
Definition state_records (st : string) (records : list ZipCodeRecord) : list ZipCodeRecord :=
  filter (fun r => String.eqb (state r) st) records.

(** A minimum (maximum) block of [calculateStateExtremes] run over a
    list of (coordinate, code) pairs. *)
Definition min_fold (ps : list (double * Z)) (a : double * Z) : double * Z :=
  fold_left (fun a p => min_block (fst a) (snd a) (fst p) (snd p)) ps a.

Definition max_fold (ps : list (double * Z)) (a : double * Z) : double * Z :=
  fold_left (fun a p => max_block (fst a) (snd a) (fst p) (snd p)) ps a.

(** [v] is the least coordinate of the (coordinate, code) pairs [ps]
    (no coordinate is below it, one equals it) and [c] the smallest code
    among the pairs that attain it; [<] and [==] are those of doubles. *)
Definition is_min_slot (ps : list (double * Z)) (v : double) (c : Z) : Prop :=
  (forall p, In p ps -> dlt (fst p) v = false) /\
  (exists p, In p ps /\ deq (fst p) v = true /\ snd p = c) /\
  (forall p, In p ps -> deq (fst p) v = true -> c <= snd p).

(** [v] is the greatest coordinate of [ps] and [c] the smallest code
    among the pairs that attain it. *)
Definition is_max_slot (ps : list (double * Z)) (v : double) (c : Z) : Prop :=
  (forall p, In p ps -> dlt v (fst p) = false) /\
  (exists p, In p ps /\ deq (fst p) v = true /\ snd p = c) /\
  (forall p, In p ps -> deq (fst p) v = true -> c <= snd p).

(* ================================================================== *)
(** * Claims *)

(** C1 (code_bug). Bulk read does not continue past a malformed line:
    on [skip_file], whose third line parses, [gatherAllRecords] returns no
    record, because [readRecord] returns false on the malformed second
    line and the [while] loop stops there. *)
Theorem gather_stops_at_malformed_line :
  fst (parseLine (nth 2 skip_file EmptyString) default_record) = true /\
  fst (parseLine (nth 1 skip_file EmptyString) default_record) = false /\
  fst (gatherAllRecords (opened "data.csv" skip_file)) = [].
Proof. vm_compute. repeat split. Qed.

(** C2 (code_bug). The result of [calculateStateExtremes] depends on the
    order of the records when a real code is 0, the sentinel of an unset
    extreme: on two records of state NY with equal coordinates and codes
    0 and 5, the order [0; 5] keeps 5 in all four slots and [5; 0] keeps 0. *)
Theorem extremes_order_dependent_on_code_zero :
  map_find "NY" (calculateStateExtremes [rec_zero; rec_five]) =
    Some (mkExtremes 5 5 5 5 (Fin 1) (Fin 1) (Fin 1) (Fin 1)) /\
  map_find "NY" (calculateStateExtremes [rec_five; rec_zero]) =
    Some (mkExtremes 0 0 0 0 (Fin 1) (Fin 1) (Fin 1) (Fin 1)).
Proof. vm_compute. split; reflexivity. Qed.

(** C6 (counterexample). [readRecord] at the end of the input and on a
    malformed line gives the same result: false, the record untouched. *)
Lemma readRecord_eof_and_error_agree :
  fst (parseLine five_fields default_record) = false /\
  fst (readRecord (buffer_at []) default_record) =
  fst (readRecord (buffer_at [five_fields]) default_record) /\
  fst (readRecord (buffer_at []) default_record) = (false, default_record).
Proof. vm_compute. repeat split. Qed.

(** C7 (code_bug). After [open] fails because the file cannot be opened,
    no stream is open but [getFilename] returns the path given to [open]. *)
Theorem getFilename_after_failed_open :
  let '(ok, b) := open (fs_of "data.csv" []) new_buffer "missing.csv" in
  ok = false /\ isOpen b = false /\ getFilename b = "missing.csv"%string.
Proof. vm_compute. repeat split. Qed.

(* ------------------------------------------------------------------ *)
(** ** splitCSV *)

Lemma quote_not_comma : Ascii.eqb quote_c comma_c = false.
Proof. reflexivity. Qed.

Lemma splitCSV_loop_no_quote line : forall inQuotes cur fields,
  ~ In quote_c cur -> Forall (fun f => ~ In quote_c f) fields ->
  Forall (fun f => ~ In quote_c f) (splitCSV_loop line inQuotes cur fields).
Proof.
  induction line as [|c rest IH]; intros q cur fields Hcur Hfs; simpl.
  - apply Forall_app; auto.
  - destruct (Ascii.eqb c quote_c) eqn:Eq.
    + apply IH; auto.
    + destruct (Ascii.eqb c comma_c && negb q).
      * apply IH; [simpl; tauto | apply Forall_app; auto].
      * apply IH; auto. rewrite in_app_iff. intros [H|[H|[]]]; [contradiction|].
        subst c. rewrite Ascii.eqb_refl in Eq. discriminate.
Qed.

Lemma join_fields_snoc xs y :
  join_fields (xs ++ [y]) = match xs with [] => y | _ => join_fields xs ++ comma_c :: y end.
Proof.
  induction xs as [|x xs IH]; [reflexivity|].
  simpl. rewrite IH. destruct xs as [|x' xs']; [reflexivity|].
  simpl. destruct (xs' ++ [y]) eqn:E.
  - destruct xs'; discriminate.
  - rewrite <- app_assoc. reflexivity.
Qed.

Lemma join_fields_app_last xs y z :
  join_fields (xs ++ [y ++ z]) = join_fields (xs ++ [y]) ++ z.
Proof.
  rewrite !join_fields_snoc. destruct xs; [reflexivity|].
  rewrite <- app_assoc. reflexivity.
Qed.

Lemma splitCSV_loop_join line : forall inQuotes cur fields,
  join_fields (splitCSV_loop line inQuotes cur fields) =
  join_fields (fields ++ [cur]) ++ filter (fun c => negb (is_quote c)) line.
Proof.
  induction line as [|c rest IH]; intros q cur fields; simpl.
  - rewrite app_nil_r. reflexivity.
  - unfold is_quote at 1. destruct (Ascii.eqb c quote_c) eqn:Eq; simpl.
    + apply IH.
    + destruct (Ascii.eqb c comma_c && negb q) eqn:Ec.
      * rewrite IH. rewrite (join_fields_snoc (fields ++ [cur])).
        destruct (fields ++ [cur]) eqn:E; [destruct fields; discriminate|].
        apply andb_true_iff in Ec as [Ec _]. apply Ascii.eqb_eq in Ec. subst c.
        rewrite <- app_assoc. reflexivity.
      * rewrite IH, join_fields_app_last, <- app_assoc. reflexivity.
Qed.

Lemma filter_map_S (f : nat -> bool) l :
  filter f (map S l) = map S (filter (fun i => f (S i)) l).
Proof.
  induction l as [|x l IH]; simpl; [reflexivity|].
  destruct (f (S x)); simpl; rewrite IH; reflexivity.
Qed.

Lemma cnt_unquoted_cons q c r :
  cnt_unquoted q (c :: r) =
  ((if Ascii.eqb c comma_c && negb q then 1 else 0)
   + cnt_unquoted (xorb q (is_quote c)) r)%nat.
Proof.
  unfold cnt_unquoted. simpl List.length. rewrite <- seq_shift.
  cbn [seq filter]. simpl nth. simpl firstn.
  unfold count_quotes at 1. simpl filter. rewrite xorb_false_r.
  assert (Hf : forall (b : bool) (l : list nat), List.length (if b then 0%nat :: l else l) =
                           ((if b then 1 else 0) + List.length l)%nat)
    by (intros [|] l; reflexivity).
  rewrite Hf, filter_map_S, length_map. f_equal. f_equal.
  apply filter_ext. intros i. cbn [firstn nth]. f_equal. f_equal.
  unfold count_quotes. cbn [filter]. unfold is_quote.
  destruct (Ascii.eqb c quote_c); cbn [List.length].
  - rewrite Nat.odd_succ, <- Nat.negb_odd.
    destruct q, (Nat.odd _); reflexivity.
  - rewrite xorb_false_r. reflexivity.
Qed.

Lemma splitCSV_loop_length line : forall inQuotes cur fields,
  List.length (splitCSV_loop line inQuotes cur fields) =
  (List.length fields + 1 + cnt_unquoted inQuotes line)%nat.
Proof.
  induction line as [|c rest IH]; intros q cur fields; simpl.
  - rewrite length_app. unfold cnt_unquoted. simpl. lia.
  - rewrite cnt_unquoted_cons. unfold is_quote.
    destruct (Ascii.eqb c quote_c) eqn:Eq.
    + apply Ascii.eqb_eq in Eq. subst c. rewrite quote_not_comma, IH. simpl.
      rewrite xorb_true_r. lia.
    + rewrite xorb_false_r.
      destruct (Ascii.eqb c comma_c && negb q); rewrite IH; rewrite ?length_app; simpl; lia.
Qed.

Lemma splitCSV_fields line :
  map list_ascii_of_string (splitCSV line) =
  splitCSV_loop (list_ascii_of_string line) false [] [].
Proof.
  unfold splitCSV. rewrite map_map.
  erewrite map_ext; [apply map_id|]. intros a. apply list_ascii_of_string_of_list_ascii.
Qed.

Lemma comma_not_quote : Ascii.eqb comma_c quote_c = false.
Proof. reflexivity. Qed.

Lemma count_quotes_cons c l :
  count_quotes (c :: l) = ((if is_quote c then 1 else 0) + count_quotes l)%nat.
Proof. unfold count_quotes. cbn [filter]. destruct (is_quote c); reflexivity. Qed.

Lemma commas_quoted_nth p i :
  commas_quoted p = true -> nth_error p i = Some comma_c ->
  Nat.odd (count_quotes (firstn i p)) = true.
Proof.
  intros Hp Hi. unfold commas_quoted in Hp. rewrite forallb_forall in Hp.
  assert (Hlt : (i < List.length p)%nat) by (apply nth_error_Some; congruence).
  specialize (Hp i ltac:(apply in_seq; lia)).
  rewrite (nth_error_nth p i quote_c Hi), Ascii.eqb_refl in Hp. exact Hp.
Qed.

(** The loop over a piece whose commas all lie between quotes (counting
    from the flag [q]): no split, the quote characters dropped. *)
Lemma splitCSV_loop_piece p : forall q cur fields rest,
  (forall i, nth_error p i = Some comma_c ->
             xorb q (Nat.odd (count_quotes (firstn i p))) = true) ->
  splitCSV_loop (p ++ rest) q cur fields =
  splitCSV_loop rest (xorb q (Nat.odd (count_quotes p)))
    (cur ++ filter (fun c => negb (is_quote c)) p) fields.
Proof.
  induction p as [|c p IH]; intros q cur fields rest H.
  - cbn [app filter]. unfold count_quotes. cbn [filter List.length Nat.odd].
    rewrite xorb_false_r, app_nil_r. reflexivity.
  - cbn [app splitCSV_loop]. rewrite count_quotes_cons. cbn [filter].
    assert (H0 := H 0%nat). cbn [nth_error firstn] in H0.
    assert (Hs : forall i, nth_error p i = Some comma_c ->
                 xorb (if is_quote c then negb q else q)
                      (Nat.odd (count_quotes (firstn i p))) = true).
    { intros i Hi. pose proof (H (S i) Hi) as Hi'. cbn [firstn] in Hi'.
      rewrite count_quotes_cons in Hi'.
      destruct (is_quote c); [|exact Hi'].
      change (1 + count_quotes (firstn i p))%nat with (S (count_quotes (firstn i p))) in Hi'.
      rewrite Nat.odd_succ, <- Nat.negb_odd in Hi'.
      destruct q, (Nat.odd (count_quotes (firstn i p))); cbn [xorb negb] in Hi' |- *; congruence. }
    destruct (is_quote c) eqn:Eq; cbn [negb].
    + unfold is_quote in Eq. rewrite Eq. rewrite (IH (negb q) cur fields rest Hs).
      change (1 + count_quotes p)%nat with (S (count_quotes p)).
      rewrite Nat.odd_succ, <- Nat.negb_odd. f_equal. destruct q, (Nat.odd (count_quotes p)); reflexivity.
    + unfold is_quote in Eq. rewrite Eq.
      assert (Hq : Ascii.eqb c comma_c && negb q = false).
      { destruct (Ascii.eqb c comma_c) eqn:Ec; [|reflexivity].
        apply Ascii.eqb_eq in Ec. subst c. specialize (H0 eq_refl).
        unfold count_quotes in H0. cbn [filter List.length Nat.odd] in H0.
        rewrite xorb_false_r in H0. rewrite H0. reflexivity. }
      rewrite Hq, (IH q (cur ++ [c]) fields rest Hs), <- app_assoc. reflexivity.
Qed.

(** The loop over pieces joined with commas, when every piece but the
    last has an even number of quote characters and the commas within a
    piece all lie between its quotes: one field per piece. *)
Lemma splitCSV_loop_pieces raws : forall fields,
  raws <> [] -> Forall (fun p => commas_quoted p = true) raws ->
  Forall (fun p => Nat.even (count_quotes p) = true) (removelast raws) ->
  splitCSV_loop (join_fields raws) false [] fields =
  fields ++ map (filter (fun c => negb (is_quote c))) raws.
Proof.
  induction raws as [|p rs IH]; intros fields Hne Hq Hev; [congruence|].
  inversion Hq as [|? ? Hp Hrs]; subst.
  assert (Hp' : forall i, nth_error p i = Some comma_c ->
                xorb false (Nat.odd (count_quotes (firstn i p))) = true)
    by (intros i Hi; apply commas_quoted_nth; assumption).
  destruct rs as [|p2 rs].
  - change (join_fields [p]) with p. rewrite <- (app_nil_r p) at 1.
    rewrite (splitCSV_loop_piece p false [] fields [] Hp'). reflexivity.
  - change (join_fields (p :: p2 :: rs)) with (p ++ comma_c :: join_fields (p2 :: rs)).
    rewrite (splitCSV_loop_piece p false [] fields _ Hp').
    cbn [removelast] in Hev. inversion Hev as [|? ? He Hevs]; subst.
    rewrite <- Nat.negb_even, He. cbn [xorb negb app splitCSV_loop].
    rewrite comma_not_quote, Ascii.eqb_refl. cbn [andb negb].
    rewrite IH; [| discriminate | exact Hrs | exact Hevs].
    rewrite <- app_assoc. reflexivity.
Qed.

(** C4. [splitCSV] splits on the commas met while the quote flag, toggled
    by every quote character, is off: no field contains a quote character, the
    fields joined back with commas give the line without its quote
    characters (so every other comma stays inside a field), and there is
    one field more than there are commas preceded by an even number of
    quotes. The splits are exactly there: a line made of pieces joined by
    commas, where every comma within a piece has an odd number of quote
    characters before it in the piece and every piece but the last has an
    even number of them, gives one field per piece, the piece without its
    quote characters (every line is such a join, cut at its commas with an
    even number of quotes before them). On the line
    ["10001","New York, NY","NY","New York",40.7128,-74.0060] it gives six
    fields, the second being [New York, NY]. *)
Theorem splitCSV_quote_toggle :
  (forall line : string,
     Forall (fun f => ~ In quote_c f) (map list_ascii_of_string (splitCSV line)) /\
     join_fields (map list_ascii_of_string (splitCSV line)) =
       filter (fun c => negb (is_quote c)) (list_ascii_of_string line) /\
     List.length (splitCSV line) = S (cnt_unquoted false (list_ascii_of_string line))) /\
  (forall raws : list (list ascii),
     raws <> [] ->
     Forall (fun p => commas_quoted p = true) raws ->
     Forall (fun p => Nat.even (count_quotes p) = true) (removelast raws) ->
     splitCSV (string_of_list_ascii (join_fields raws)) =
       map (fun p => string_of_list_ascii (filter (fun c => negb (is_quote c)) p)) raws) /\
  splitCSV ny_line =
    ["10001"; "New York, NY"; "NY"; "New York"; "40.7128"; "-74.0060"]%string.
Proof.
  split; [|split; [|vm_compute; reflexivity]].
  - intros line. rewrite splitCSV_fields. split; [|split].
    + apply splitCSV_loop_no_quote; [simpl; tauto | constructor].
    + rewrite splitCSV_loop_join. reflexivity.
    + unfold splitCSV. rewrite length_map, splitCSV_loop_length. reflexivity.
  - intros raws Hne Hq Hev. unfold splitCSV.
    rewrite list_ascii_of_string_of_list_ascii, (splitCSV_loop_pieces raws [] Hne Hq Hev).
    cbn [app]. rewrite map_map. reflexivity.
Qed.


(* ------------------------------------------------------------------ *)
(** ** The tie-break of calculateStateExtremes *)

Lemma Qltb_iff a b : Qltb a b = true <-> Qlt a b.
Proof.
  unfold Qltb. rewrite negb_true_iff. split; intros H.
  - apply Qnot_le_lt. intros H'. apply Qle_bool_iff in H'. congruence.
  - destruct (Qle_bool b a) eqn:E; [|reflexivity].
    apply Qle_bool_iff in E. exfalso. apply (Qlt_not_le a b); assumption.
Qed.

Lemma Qltb_false a b : Qltb a b = false <-> Qle b a.
Proof. unfold Qltb. rewrite negb_false_iff. apply Qle_bool_iff. Qed.

Lemma dlt_trans a b c : dlt a b = true -> dlt b c = true -> dlt a c = true.
Proof.
  destruct a, b, c; simpl; intros H1 H2; try discriminate; try reflexivity.
  rewrite Qltb_iff in *. eapply Qlt_trans; eassumption.
Qed.

Lemma dlt_irrefl a : dlt a a = false.
Proof. destruct a; simpl; try reflexivity. apply Qltb_false, Qle_refl. Qed.

Lemma deq_sym a b : deq a b = deq b a.
Proof.
  destruct a, b; simpl; try reflexivity.
  destruct (Qeq_bool q q0) eqn:E1, (Qeq_bool q0 q) eqn:E2; try reflexivity.
  - apply Qeq_bool_iff in E1. symmetry in E1. apply Qeq_bool_iff in E1. congruence.
  - apply Qeq_bool_iff in E2. symmetry in E2. apply Qeq_bool_iff in E2. congruence.
Qed.

Lemma deq_trans a b c : deq a b = true -> deq b c = true -> deq a c = true.
Proof.
  destruct a, b, c; simpl; intros H1 H2; try discriminate; try reflexivity.
  apply Qeq_bool_iff in H1, H2. apply Qeq_bool_iff. rewrite H1. exact H2.
Qed.

Lemma deq_not_lt x v : deq x v = true -> dlt x v = false /\ dlt v x = false.
Proof.
  destruct x, v; simpl; intros H; try discriminate; try (split; reflexivity).
  apply Qeq_bool_iff in H. rewrite !Qltb_false. rewrite H. split; apply Qle_refl.
Qed.

Lemma dlt_deq_r a b c : dlt a b = true -> deq b c = true -> dlt a c = true.
Proof.
  destruct a, b, c; simpl; intros H1 H2; try discriminate; try reflexivity.
  apply Qeq_bool_iff in H2. rewrite Qltb_iff in *. rewrite <- H2. exact H1.
Qed.

Lemma dlt_deq_l a b c : deq a b = true -> dlt b c = true -> dlt a c = true.
Proof.
  destruct a, b, c; simpl; intros H1 H2; try discriminate; try reflexivity.
  apply Qeq_bool_iff in H1. rewrite Qltb_iff in *. rewrite H1. exact H2.
Qed.

Lemma dlt_deq_refl_l a b : dlt a b = true -> deq a a = true.
Proof. destruct a, b; simpl; intros H; try discriminate; try reflexivity; apply Qeq_bool_iff, Qeq_refl. Qed.

Lemma dlt_deq_refl_r a b : dlt a b = true -> deq b b = true.
Proof. destruct a, b; simpl; intros H; try discriminate; try reflexivity; apply Qeq_bool_iff, Qeq_refl. Qed.

Lemma dlt_total a b : deq a a = true -> deq b b = true ->
  dlt a b = true \/ deq a b = true \/ dlt b a = true.
Proof.
  destruct a, b; simpl; intros H1 H2; try discriminate; auto.
  destruct (Qlt_le_dec q q0) as [H|H].
  - left. apply Qltb_iff. exact H.
  - apply Qle_lteq in H as [H|H].
    + right; right. apply Qltb_iff. exact H.
    + right; left. apply Qeq_bool_iff. symmetry. exact H.
Qed.

Lemma min_block_tie v code x zip : deq x v = true ->
  min_block v code x zip = (v, if smallerZipWins zip code then zip else code).
Proof.
  intros H. unfold min_block. destruct (deq_not_lt _ _ H) as [-> _]. rewrite H. reflexivity.
Qed.

Lemma max_block_tie v code x zip : deq x v = true ->
  max_block v code x zip = (v, if smallerZipWins zip code then zip else code).
Proof.
  intros H. unfold max_block. destruct (deq_not_lt _ _ H) as [_ ->]. rewrite H. reflexivity.
Qed.

(** On a fresh entry a finite coordinate is stored (up to [==]) with the
    record's code. *)
Lemma min_block_fresh x zip : dfinite x = true ->
  deq (fst (min_block (Fin DBL_MAX) 0 x zip)) x = true /\ snd (min_block (Fin DBL_MAX) 0 x zip) = zip.
Proof.
  destruct x as [q| | |]; intros H; try discriminate.
  apply andb_true_iff in H as [_ H]. apply Qle_bool_iff in H.
  unfold min_block. cbn [dlt deq]. destruct (Qltb q DBL_MAX) eqn:E; cbn [fst snd].
  - split; [apply Qeq_bool_iff, Qeq_refl | reflexivity].
  - apply Qltb_false in E. assert (Hq : Qeq q DBL_MAX) by (apply Qle_antisym; assumption).
    assert (Qeq_bool q DBL_MAX = true) as -> by (apply Qeq_bool_iff; exact Hq).
    cbn [fst snd deq]. split; [apply Qeq_bool_iff; symmetry; exact Hq | reflexivity].
Qed.

Lemma max_block_fresh x zip : dfinite x = true ->
  deq (fst (max_block (Fin DBL_LOWEST) 0 x zip)) x = true /\ snd (max_block (Fin DBL_LOWEST) 0 x zip) = zip.
Proof.
  destruct x as [q| | |]; intros H; try discriminate.
  apply andb_true_iff in H as [H _]. apply Qle_bool_iff in H.
  unfold max_block. cbn [dlt deq]. destruct (Qltb DBL_LOWEST q) eqn:E; cbn [fst snd].
  - split; [apply Qeq_bool_iff, Qeq_refl | reflexivity].
  - apply Qltb_false in E. assert (Hq : Qeq q DBL_LOWEST) by (apply Qle_antisym; assumption).
    assert (Qeq_bool q DBL_LOWEST = true) as -> by (apply Qeq_bool_iff; exact Hq).
    cbn [fst snd deq]. split; [apply Qeq_bool_iff; symmetry; exact Hq | reflexivity].
Qed.

Lemma string_compare_refl s : String.compare s s = Eq.
Proof.
  induction s as [|a s IH]; simpl; [reflexivity|].
  unfold Ascii.compare. rewrite N.compare_refl. exact IH.
Qed.

Lemma calculate_two_same_state r1 r2 :
  state r1 = state r2 ->
  map_find (state r1) (calculateStateExtremes [r1; r2]) =
  Some (update_extremes r2 (update_extremes r1 default_extremes)).
Proof.
  intros H. unfold calculateStateExtremes. simpl. rewrite H.
  rewrite string_compare_refl.
  simpl. rewrite String.eqb_refl. reflexivity.
Qed.

(** The fields of [update_extremes], block by block. *)
Lemma update_extremes_fields r e :
  let u := update_extremes r e in
  (minLongitude u, easternmost u) =
    min_block (minLongitude e) (easternmost e) (longitude r) (zipCode r) /\
  (maxLongitude u, westernmost u) =
    max_block (maxLongitude e) (westernmost e) (longitude r) (zipCode r) /\
  (maxLatitude u, northernmost u) =
    max_block (maxLatitude e) (northernmost e) (latitude r) (zipCode r) /\
  (minLatitude u, southernmost u) =
    min_block (minLatitude e) (southernmost e) (latitude r) (zipCode r).
Proof.
  unfold update_extremes.
  destruct (min_block (minLongitude e) (easternmost e) (longitude r) (zipCode r)).
  destruct (max_block (maxLongitude e) (westernmost e) (longitude r) (zipCode r)).
  destruct (max_block (maxLatitude e) (northernmost e) (latitude r) (zipCode r)).
  destruct (min_block (minLatitude e) (southernmost e) (latitude r) (zipCode r)).
  repeat split.
Qed.

(** The longitude slots after two records of one state with the same
    finite longitude. *)
Lemma lon_slots_two_ties r1 r2 :
  dfinite (longitude r1) = true ->
  deq (longitude r2) (longitude r1) = true ->
  let e := update_extremes r2 (update_extremes r1 default_extremes) in
  easternmost e = (if smallerZipWins (zipCode r2) (zipCode r1) then zipCode r2 else zipCode r1) /\
  westernmost e = (if smallerZipWins (zipCode r2) (zipCode r1) then zipCode r2 else zipCode r1).
Proof.
  intros Hfin Heq. cbn zeta.
  set (e1 := update_extremes r1 default_extremes).
  destruct (update_extremes_fields r1 default_extremes) as [E1 [W1 _]].
  destruct (update_extremes_fields r2 e1) as [E2 [W2 _]].
  fold e1 in E1, W1.
  cbn [minLongitude maxLongitude easternmost westernmost default_extremes] in E1, W1.
  destruct (min_block_fresh (longitude r1) (zipCode r1) Hfin) as [Hv1 Hc1].
  destruct (max_block_fresh (longitude r1) (zipCode r1) Hfin) as [Hv2 Hc2].
  rewrite <- E1 in Hv1, Hc1. rewrite <- W1 in Hv2, Hc2. cbn [fst snd] in Hv1, Hc1, Hv2, Hc2.
  rewrite min_block_tie in E2 by (eapply deq_trans; [exact Heq | rewrite deq_sym; exact Hv1]).
  rewrite max_block_tie in W2 by (eapply deq_trans; [exact Heq | rewrite deq_sym; exact Hv2]).
  rewrite Hc1 in E2. rewrite Hc2 in W2.
  injection E2 as _ ->. injection W2 as _ ->. split; reflexivity.
Qed.

(** C3 (counterexample). The tie-break fails at an infinite longitude,
    which [std::stod] reads from [inf]: after two records of state NY at
    longitude [inf] with codes 10023 then 10005, EASTERNMOST is still the
    unset 0, as [inf] is neither below nor equal to the sentinel
    [DBL_MAX], while WESTERNMOST is 10005. *)
Lemma tie_break_fails_at_infinite_longitude :
  stod "inf" = Some PInf /\
  exists e, map_find "NY" (calculateStateExtremes (fst (gatherAllRecords (opened "data.csv" inf_file))))
              = Some e /\
            easternmost e = 0 /\ westernmost e = 10005.
Proof. split; [vm_compute; reflexivity|]. eexists. vm_compute. split; [reflexivity|]. split; reflexivity. Qed.

(** C3 (amended). When a record's coordinate equals ([==] on doubles) the
    stored extreme of its slot, the slot's code becomes the record's code
    if the stored code is the sentinel 0, else the smaller of the two
    codes; the stored coordinate is kept. So two records of one state with
    the same finite longitude and codes 10023 and 10005 leave 10005 as
    easternmost and westernmost, in either order. *)
Theorem tie_break_smaller_zip_wins :
  (forall r e, deq (longitude r) (minLongitude e) = true ->
     let u := update_extremes r e in
     minLongitude u = minLongitude e /\
     easternmost u = (if easternmost e =? 0 then zipCode r
                      else if zipCode r <? easternmost e then zipCode r else easternmost e)) /\
  (forall r e, deq (longitude r) (maxLongitude e) = true ->
     let u := update_extremes r e in
     maxLongitude u = maxLongitude e /\
     westernmost u = (if westernmost e =? 0 then zipCode r
                      else if zipCode r <? westernmost e then zipCode r else westernmost e)) /\
  (forall r e, deq (latitude r) (maxLatitude e) = true ->
     let u := update_extremes r e in
     maxLatitude u = maxLatitude e /\
     northernmost u = (if northernmost e =? 0 then zipCode r
                       else if zipCode r <? northernmost e then zipCode r else northernmost e)) /\
  (forall r e, deq (latitude r) (minLatitude e) = true ->
     let u := update_extremes r e in
     minLatitude u = minLatitude e /\
     southernmost u = (if southernmost e =? 0 then zipCode r
                       else if zipCode r <? southernmost e then zipCode r else southernmost e)) /\
  (forall st p1 c1 lat1 p2 c2 lat2 lon,
     dfinite lon = true ->
     let r1 := mkRecord 10023 p1 st c1 lat1 lon in
     let r2 := mkRecord 10005 p2 st c2 lat2 lon in
     (exists e, map_find st (calculateStateExtremes [r1; r2]) = Some e /\
                easternmost e = 10005 /\ westernmost e = 10005) /\
     (exists e, map_find st (calculateStateExtremes [r2; r1]) = Some e /\
                easternmost e = 10005 /\ westernmost e = 10005)).
Proof.
  split; [|split; [|split; [|split]]].
  - intros r e H. cbn zeta. destruct (update_extremes_fields r e) as [E _].
    rewrite min_block_tie in E by exact H. injection E as -> ->. split; [reflexivity|]. unfold smallerZipWins. destruct (_ =? 0); [reflexivity|]. destruct (_ <? _); reflexivity.
  - intros r e H. cbn zeta. destruct (update_extremes_fields r e) as [_ [E _]].
    rewrite max_block_tie in E by exact H. injection E as -> ->. split; [reflexivity|]. unfold smallerZipWins. destruct (_ =? 0); [reflexivity|]. destruct (_ <? _); reflexivity.
  - intros r e H. cbn zeta. destruct (update_extremes_fields r e) as [_ [_ [E _]]].
    rewrite max_block_tie in E by exact H. injection E as -> ->. split; [reflexivity|]. unfold smallerZipWins. destruct (_ =? 0); [reflexivity|]. destruct (_ <? _); reflexivity.
  - intros r e H. cbn zeta. destruct (update_extremes_fields r e) as [_ [_ [_ E]]].
    rewrite min_block_tie in E by exact H. injection E as -> ->. split; [reflexivity|]. unfold smallerZipWins. destruct (_ =? 0); [reflexivity|]. destruct (_ <? _); reflexivity.
  - intros st p1 c1 lat1 p2 c2 lat2 lon Hfin. cbn zeta.
    assert (Hrefl : deq lon lon = true)
      by (destruct lon; try discriminate; apply Qeq_bool_iff, Qeq_refl).
    split.
    + rewrite (calculate_two_same_state (mkRecord 10023 p1 st c1 lat1 lon)) by reflexivity.
      eexists; split; [reflexivity|].
      apply (lon_slots_two_ties (mkRecord 10023 p1 st c1 lat1 lon) (mkRecord 10005 p2 st c2 lat2 lon));
        assumption.
    + rewrite (calculate_two_same_state (mkRecord 10005 p2 st c2 lat2 lon)) by reflexivity.
      eexists; split; [reflexivity|].
      apply (lon_slots_two_ties (mkRecord 10005 p2 st c2 lat2 lon) (mkRecord 10023 p1 st c1 lat1 lon));
        assumption.
Qed.


(* ------------------------------------------------------------------ *)
(** ** readRecord *)

Lemma readRecord_fuel_closed fuel b record :
  fileStream b = None -> readRecord_fuel fuel b record = (false, record, b).
Proof. intros H. destruct fuel; simpl; rewrite H; reflexivity. Qed.

(** From a stream positioned at some blank lines followed by a non-blank
    line [l], [readRecord] consumes the blank lines and [l] and returns
    what [parseLine] returns on [l]. *)
Lemma readRecord_fuel_line blanks : forall fuel b s record l rest,
  fileStream b = Some s -> failbit s = false ->
  remaining s = blanks ++ l :: rest ->
  Forall (fun x => blank x = true) blanks -> blank l = false ->
  (List.length blanks <= fuel)%nat ->
  readRecord_fuel fuel b record =
  (fst (parseLine l record), snd (parseLine l record),
   mkBuffer (Some (mkStream (contents s) rest false)) (filename b) (headerSkipped b)
            (if fst (parseLine l record) then recordCount b + 1 else recordCount b)).
Proof.
  induction blanks as [|x bs IH]; intros fuel b s record l rest Hb Hf Hr Hbl Hl Hfuel.
  - assert (Hstep : readRecord_fuel fuel b record =
      match parseLine l record with
      | (true, record') => (true, record', mkBuffer (Some (mkStream (contents s) rest false))
                                              (filename b) (headerSkipped b) (recordCount b + 1))
      | (false, record') => (false, record', set_stream b (mkStream (contents s) rest false))
      end).
    { destruct fuel; simpl; rewrite Hb; unfold getline; rewrite Hf, Hr; simpl;
      rewrite Hl; reflexivity. }
    rewrite Hstep. destruct (parseLine l record) as [[|] r']; reflexivity.
  - destruct fuel as [|fuel]; [simpl in Hfuel; lia|].
    inversion Hbl as [|? ? Hx Hbs]; subst.
    simpl. rewrite Hb. unfold getline. rewrite Hf, Hr. simpl. rewrite Hx.
    rewrite (IH fuel _ (mkStream (contents s) (bs ++ l :: rest) false) record l rest);
      simpl; auto. simpl in Hfuel. lia.
Qed.

(** From a stream with only blank lines left, [readRecord] returns false
    and leaves the record as it was. *)
Lemma readRecord_fuel_eof blanks : forall fuel b s record,
  fileStream b = Some s -> failbit s = false -> remaining s = blanks ->
  Forall (fun x => blank x = true) blanks -> (List.length blanks <= fuel)%nat ->
  readRecord_fuel fuel b record =
  (false, record, set_stream b (mkStream (contents s) [] true)).
Proof.
  induction blanks as [|x bs IH]; intros fuel b s record Hb Hf Hr Hbl Hfuel.
  - destruct fuel; simpl; rewrite Hb; unfold getline; rewrite Hf, Hr; reflexivity.
  - destruct fuel as [|fuel]; [simpl in Hfuel; lia|].
    inversion Hbl as [|? ? Hx Hbs]; subst.
    simpl. rewrite Hb. unfold getline. rewrite Hf, Hr. simpl. rewrite Hx.
    rewrite (IH fuel _ (mkStream (contents s) bs false) record); simpl; auto. simpl in Hfuel. lia.
Qed.

Lemma readRecord_fuel_failed fuel b s record :
  fileStream b = Some s -> failbit s = true ->
  readRecord_fuel fuel b record = (false, record, set_stream b s).
Proof. intros Hb Hf. destruct fuel; simpl; rewrite Hb; unfold getline; rewrite Hf; reflexivity. Qed.

Lemma lines_left_open b s : fileStream b = Some s -> lines_left b = List.length (remaining s).
Proof. intros H. unfold lines_left. rewrite H. reflexivity. Qed.

(** What every [readRecord_fuel] call keeps: the stream stays open on the
    same file and moves forward, and a true result comes from a line that
    was ahead and that [parseLine] accepted. *)
Lemma readRecord_fuel_inv fuel : forall b s record,
  fileStream b = Some s ->
  let '(ok, r', b') := readRecord_fuel fuel b record in
  exists s', fileStream b' = Some s' /\ contents s' = contents s /\
    (exists pre, remaining s = pre ++ remaining s') /\
    (ok = true -> exists l, In l (remaining s) /\ parseLine l record = (true, r')).
Proof.
  induction fuel as [|fuel IH]; intros b s record Hb.
  - simpl. rewrite Hb. unfold getline.
    destruct (failbit s).
    + exists s. repeat split; [exists []; reflexivity | discriminate].
    + destruct (remaining s) as [|l rest] eqn:Hr.
      * eexists; repeat split; [exists []; simpl; auto | discriminate].
      * destruct (blank l).
        -- eexists; repeat split; [exists [l]; reflexivity | discriminate].
        -- destruct (parseLine l record) as [[|] r'] eqn:Hp.
           ++ eexists; repeat split; [exists [l]; reflexivity |].
              intros _. exists l. split; [left|]; auto.
           ++ eexists; repeat split; [exists [l]; reflexivity | discriminate].
  - simpl. rewrite Hb. unfold getline.
    destruct (failbit s).
    + exists s. repeat split; [exists []; reflexivity | discriminate].
    + destruct (remaining s) as [|l rest] eqn:Hr.
      * eexists; repeat split; [exists []; simpl; auto | discriminate].
      * destruct (blank l).
        -- specialize (IH (set_stream b (mkStream (contents s) rest false))
                          (mkStream (contents s) rest false) record eq_refl).
           destruct (readRecord_fuel fuel _ record) as [[ok r'] b'].
           destruct IH as (s' & Hs' & Hc & [pre Hpre] & Hok).
           exists s'. split; [exact Hs'|]. split; [exact Hc|]. split.
           ++ exists (l :: pre). simpl in Hpre. rewrite Hpre. reflexivity.
           ++ intros Htrue. destruct (Hok Htrue) as (l' & Hin & Hp).
              exists l'. split; [right; exact Hin | exact Hp].
        -- destruct (parseLine l record) as [[|] r'] eqn:Hp.
           ++ eexists; repeat split; [exists [l]; reflexivity |].
              intros _. exists l. split; [left|]; auto.
           ++ eexists; repeat split; [exists [l]; reflexivity | discriminate].
Qed.

(** [parseLine] overwrites every field when it succeeds. *)
Lemma parseLine_ok_any_record line r0 r1 r :
  parseLine line r0 = (true, r) -> parseLine line r1 = (true, r).
Proof.
  unfold parseLine.
  destruct (negb _); [discriminate|].
  destruct (stoi _); [|discriminate].
  destruct (stod (trim (nth 4 _ _))); [|discriminate].
  destruct (stod (trim (nth 5 _ _))); [|discriminate].
  intros H. injection H as <-. reflexivity.
Qed.

(* ------------------------------------------------------------------ *)
(** ** reset and gatherAllRecords *)

Lemma reset_open b s :
  fileStream b = Some s -> fileStream (snd (reset b)) = Some (snd (getline (rewind s))).
Proof.
  intros H. unfold reset. rewrite H.
  destruct (getline (rewind s)) as [[h|] s']; reflexivity.
Qed.

Lemma reset_closed b : fileStream b = None -> snd (reset b) = b.
Proof. intros H. unfold reset. rewrite H. reflexivity. Qed.

Lemma getline_rewind_contents s :
  contents (snd (getline (rewind s))) = contents s /\
  remaining (snd (getline (rewind s))) = tl (contents s).
Proof. unfold getline, rewind. simpl. destruct (contents s); split; reflexivity. Qed.

Lemma gather_loop_records fuel : forall b s record acc body pre,
  fileStream b = Some s -> body = pre ++ remaining s ->
  (forall r, In r acc -> exists l, In l body /\ parseLine l default_record = (true, r)) ->
  forall r, In r (fst (gather_loop fuel b record acc)) ->
  exists l, In l body /\ parseLine l default_record = (true, r).
Proof.
  induction fuel as [|fuel IH]; intros b s record acc body pre Hb Hbody Hacc; simpl; [exact Hacc|].
  unfold readRecord.
  pose proof (readRecord_fuel_inv (S (lines_left b)) b s record Hb) as Hinv.
  destruct (readRecord_fuel (S (lines_left b)) b record) as [[[|] r'] b'].
  - destruct Hinv as (s' & Hs' & _ & [pre' Hpre'] & Hok).
    apply (IH b' s' r' (acc ++ [r']) body (pre ++ pre')); auto.
    + rewrite Hbody, Hpre', app_assoc. reflexivity.
    + intros r Hr. apply in_app_or in Hr as [Hr|[Hr|[]]]; [auto|subst r].
      destruct (Hok eq_refl) as (l & Hin & Hp). exists l. split.
      * rewrite Hbody. apply in_or_app. right. exact Hin.
      * eapply parseLine_ok_any_record. exact Hp.
  - exact Hacc.
Qed.

(** Every record [gatherAllRecords] returns is [parseLine]'s result on a
    line of the open file after its first (header) line. *)
Lemma gather_records_from_lines b s r :
  fileStream b = Some s -> In r (fst (gatherAllRecords b)) ->
  exists l, In l (tl (contents s)) /\ parseLine l default_record = (true, r).
Proof.
  intros Hb. unfold gatherAllRecords.
  pose proof (reset_open b s Hb) as Hr.
  destruct (getline_rewind_contents s) as [_ Hrem].
  destruct (gather_loop _ (snd (reset b)) default_record []) as [records b2] eqn:Hg.
  simpl. intros Hin.
  apply (gather_loop_records (S (lines_left (snd (reset b)))) (snd (reset b)) _ default_record [] (tl (contents s)) []
           Hr ltac:(rewrite Hrem; reflexivity) ltac:(intros ? [])).
  rewrite Hg. exact Hin.
Qed.

Lemma parseLine_ok_iff line record :
  fst (parseLine line record) = true <->
  List.length (splitCSV line) = 6%nat /\
  stoi (trim (nth 0 (splitCSV line) EmptyString)) <> None /\
  stod (trim (nth 4 (splitCSV line) EmptyString)) <> None /\
  stod (trim (nth 5 (splitCSV line) EmptyString)) <> None.
Proof.
  unfold parseLine.
  destruct (List.length (splitCSV line) =? 6)%nat eqn:Hn; simpl.
  - apply Nat.eqb_eq in Hn.
    destruct (stoi _); [|split; [discriminate | intros (_ & H & _); congruence]].
    destruct (stod (trim (nth 4 _ _))); [|split; [discriminate | intros (_ & _ & H & _); congruence]].
    destruct (stod (trim (nth 5 _ _))); [|split; [discriminate | intros (_ & _ & _ & H); congruence]].
    simpl. split; [intros _; repeat split; congruence | reflexivity].
  - apply Nat.eqb_neq in Hn. split; [discriminate | intros [H _]; contradiction].
Qed.

Lemma read_digits_app ds : forall rest acc n,
  Forall (fun c => digit_of c <> None) ds -> no_digit_first rest ->
  let '(v, k, _) := read_digits ds acc n in read_digits (ds ++ rest) acc n = (v, k, rest).
Proof.
  induction ds as [|d ds IH]; intros rest acc n Hds Hr.
  - cbn [read_digits app]. destruct rest as [|c rest]; [reflexivity|].
    cbn [read_digits]. cbn [no_digit_first] in Hr. rewrite Hr. reflexivity.
  - inversion Hds as [|? ? Hd Hds']; subst.
    cbn [read_digits app]. destruct (digit_of d) as [x|]; [|congruence].
    apply IH; assumption.
Qed.

Lemma read_digits_none cs acc n :
  no_digit_first cs -> read_digits cs acc n = (acc, n, cs).
Proof.
  destruct cs as [|c cs]; [reflexivity|]. cbn [no_digit_first read_digits].
  intros H. rewrite H. reflexivity.
Qed.

Lemma digit_not_space_sign d :
  digit_of d <> None ->
  is_c_space d = false /\ (nat_of_ascii d =? 45)%nat = false /\ (nat_of_ascii d =? 43)%nat = false.
Proof.
  unfold digit_of, is_c_space. set (n := nat_of_ascii d).
  destruct ((48 <=? n)%nat && (n <=? 57)%nat) eqn:E; [|congruence]. intros _.
  apply andb_true_iff in E as [E1 E2]. apply Nat.leb_le in E1, E2.
  repeat split.
  - apply orb_false_iff. split; [apply Nat.eqb_neq; lia|].
    apply andb_false_iff. right. apply Nat.leb_gt. lia.
  - apply Nat.eqb_neq. lia.
  - apply Nat.eqb_neq. lia.
Qed.

(** [stoi] on a digit sequence followed by anything that does not start
    with a digit reads the digits alone. *)
Lemma stoi_digit_prefix ds rest z :
  Forall (fun c => digit_of c <> None) ds -> no_digit_first rest ->
  stoi (string_of_list_ascii ds) = Some z ->
  stoi (string_of_list_ascii (ds ++ rest)) = Some z.
Proof.
  intros Hds Hr. unfold stoi. rewrite !list_ascii_of_string_of_list_ascii.
  destruct ds as [|d ds']; [cbn; discriminate|].
  inversion Hds as [|? ? Hd _]; subst.
  destruct (digit_not_space_sign d Hd) as (Hs & Hm & Hp).
  cbn [app skip_space]. rewrite !Hs. cbn [read_sign]. rewrite !Hm, !Hp.
  pose proof (read_digits_app (d :: ds') rest 0 0%nat Hds Hr) as H.
  destruct (read_digits (d :: ds') 0 0%nat) as [[v k] tl0].
  change (d :: ds' ++ rest) with ((d :: ds') ++ rest). rewrite H. exact (fun x => x).
Qed.

(** [stoi] on a string that does not start, after white space and an
    optional sign, with a digit throws. *)
Lemma stoi_no_digit s :
  no_digit_first (snd (read_sign (skip_space (list_ascii_of_string s)))) -> stoi s = None.
Proof.
  unfold stoi. destruct (read_sign (skip_space (list_ascii_of_string s))) as [neg cs].
  cbn [snd]. intros H. rewrite (read_digits_none cs 0 0%nat H). reflexivity.
Qed.

(** C5 (counterexample). A code field that is not a number but starts
    with digits is accepted: [stoi] reads the digit prefix of [12abc], so
    the line [12abc,A,NY,B,1,2] parses, with code 12, and the bulk read of
    a file holding it returns that record. *)
Lemma parseLine_accepts_code_digit_prefix :
  stoi "12abc" = Some 12 /\
  fst (parseLine prefix_line default_record) = true /\
  zipCode (snd (parseLine prefix_line default_record)) = 12 /\
  fst (gatherAllRecords (opened "data.csv" prefix_file)) = [snd (parseLine prefix_line default_record)].
Proof. vm_compute. repeat split. Qed.

(** C5 (amended). [parseLine] succeeds exactly when [splitCSV] gives six
    fields, [stoi] accepts the first (trimmed) and [stod] the fifth and the
    sixth; [stoi] accepts a field that starts, after white space and an
    optional sign, with a digit, whatever follows the digits. So every
    record [gatherAllRecords] returns comes from a line of the file (after
    the header) with six fields and a code field [stoi] accepts, and a
    line with another field count, or whose code field has no such digit
    prefix, gives none. *)
Theorem parseLine_accepts_six_numeric_fields :
  (forall line record,
     fst (parseLine line record) = true <->
     List.length (splitCSV line) = 6%nat /\
     stoi (trim (nth 0 (splitCSV line) EmptyString)) <> None /\
     stod (trim (nth 4 (splitCSV line) EmptyString)) <> None /\
     stod (trim (nth 5 (splitCSV line) EmptyString)) <> None) /\
  (forall b s r, fileStream b = Some s -> In r (fst (gatherAllRecords b)) ->
     exists l, In l (tl (contents s)) /\
       List.length (splitCSV l) = 6%nat /\
       stoi (trim (nth 0 (splitCSV l) EmptyString)) <> None /\
       parseLine l default_record = (true, r)) /\
  (forall s, no_digit_first (snd (read_sign (skip_space (list_ascii_of_string s)))) ->
     stoi s = None) /\
  (forall ds rest z, Forall (fun c => digit_of c <> None) ds -> no_digit_first rest ->
     stoi (string_of_list_ascii ds) = Some z ->
     stoi (string_of_list_ascii (ds ++ rest)) = Some z).
Proof.
  split; [exact parseLine_ok_iff|].
  split; [|split; [exact stoi_no_digit | exact stoi_digit_prefix]].
  intros b s r Hb Hin.
  destruct (gather_records_from_lines b s r Hb Hin) as (l & Hl & Hp).
  assert (Hok : fst (parseLine l default_record) = true) by (rewrite Hp; reflexivity).
  apply parseLine_ok_iff in Hok as (H6 & Hz & _).
  exists l. auto.
Qed.

(** C6 (amended). [readRecord] returns a bool: false with the record
    untouched when no stream is open or only blank lines are left, whether
    or not the stream has already failed (so also on every read after the
    end of the input); on a stream that has not failed, past blank lines,
    on the first non-blank line, exactly what [parseLine] returns on it
    (true with the record when the line parses, false when it does not).
    End of input and a malformed line both give false. *)
Theorem readRecord_returns_bool :
  (forall b record, fileStream b = None -> readRecord b record = (false, record, b)) /\
  (forall b s record blanks,
     fileStream b = Some s -> remaining s = blanks ->
     Forall (fun x => blank x = true) blanks ->
     fst (readRecord b record) = (false, record)) /\
  (forall b s record blanks l rest,
     fileStream b = Some s -> failbit s = false -> remaining s = blanks ++ l :: rest ->
     Forall (fun x => blank x = true) blanks -> blank l = false ->
     fst (readRecord b record) = parseLine l record).
Proof.
  split; [|split].
  - intros b record H. apply readRecord_fuel_closed. exact H.
  - intros b s record blanks Hb Hr Hbl. unfold readRecord.
    destruct (failbit s) eqn:Hf.
    { rewrite (readRecord_fuel_failed _ b s record Hb Hf). reflexivity. }
    rewrite (readRecord_fuel_eof blanks _ b s record Hb Hf Hr Hbl); [reflexivity|].
    rewrite (lines_left_open b s Hb), Hr. lia.
  - intros b s record blanks l rest Hb Hf Hr Hbl Hl. unfold readRecord.
    rewrite (readRecord_fuel_line blanks _ b s record l rest Hb Hf Hr Hbl Hl).
    + simpl. destruct (parseLine l record); reflexivity.
    + rewrite (lines_left_open b s Hb), Hr, length_app. simpl. lia.
Qed.

(** C10. When [readRecord] fails on a malformed line, the line has been
    extracted: the stream continues, fail bit clear, at the line after
    it, so the next [readRecord] reads from there. *)
Theorem readRecord_consumes_malformed_line b s record blanks l rest :
  fileStream b = Some s -> failbit s = false -> remaining s = blanks ++ l :: rest ->
  Forall (fun x => blank x = true) blanks -> blank l = false ->
  fst (parseLine l record) = false ->
  exists r' b', readRecord b record = (false, r', b') /\
    fileStream b' = Some (mkStream (contents s) rest false) /\
    (forall l' rest' record', rest = l' :: rest' -> blank l' = false ->
       fst (readRecord b' record') = parseLine l' record').
Proof.
  intros Hb Hf Hr Hbl Hl Hp. unfold readRecord.
  rewrite (readRecord_fuel_line blanks _ b s record l rest Hb Hf Hr Hbl Hl).
  2: { rewrite (lines_left_open b s Hb), Hr, length_app. simpl. lia. }
  rewrite Hp. eexists; eexists; split; [reflexivity|]. split; [reflexivity|].
  intros l' rest' record' Hrest Hl'. subst rest.
  rewrite (readRecord_fuel_line [] _ _ (mkStream (contents s) (l' :: rest') false) record' l' rest');
    simpl; auto.
  - destruct (parseLine l' record'); reflexivity.
  - lia.
Qed.

(* ------------------------------------------------------------------ *)
(** ** Re-reading after reset *)

Lemma readRecord_fuel_same_stream fuel : forall b1 b2 record,
  fileStream b1 = fileStream b2 ->
  fst (readRecord_fuel fuel b1 record) = fst (readRecord_fuel fuel b2 record) /\
  fileStream (snd (readRecord_fuel fuel b1 record)) =
  fileStream (snd (readRecord_fuel fuel b2 record)).
Proof.
  induction fuel as [|fuel IH]; intros b1 b2 record H; simpl; rewrite <- H;
    destruct (fileStream b1) as [s|] eqn:Hs.
  - destruct (getline s) as [[line|] s']; simpl; auto.
    destruct (blank line); [simpl; auto|].
    destruct (parseLine line record) as [[|] r']; simpl; auto.
  - simpl. split; [reflexivity|]. rewrite <- H. exact Hs.
  - destruct (getline s) as [[line|] s']; simpl; auto.
    destruct (blank line); [apply IH; reflexivity|].
    destruct (parseLine line record) as [[|] r']; simpl; auto.
  - simpl. split; [reflexivity|]. rewrite <- H. exact Hs.
Qed.

Lemma lines_left_same_stream b1 b2 :
  fileStream b1 = fileStream b2 -> lines_left b1 = lines_left b2.
Proof. intros H. unfold lines_left. rewrite H. reflexivity. Qed.

Lemma gather_loop_same_stream fuel : forall b1 b2 record acc,
  fileStream b1 = fileStream b2 ->
  fst (gather_loop fuel b1 record acc) = fst (gather_loop fuel b2 record acc).
Proof.
  induction fuel as [|fuel IH]; intros b1 b2 record acc H; simpl; [reflexivity|].
  unfold readRecord. rewrite (lines_left_same_stream b1 b2 H).
  destruct (readRecord_fuel_same_stream (S (lines_left b2)) b1 b2 record H) as [E1 E2].
  destruct (readRecord_fuel (S (lines_left b2)) b1 record) as [[ok1 r1] b1'].
  destruct (readRecord_fuel (S (lines_left b2)) b2 record) as [[ok2 r2] b2'].
  simpl in E1, E2. injection E1 as -> ->.
  destruct ok2; [apply IH; exact E2 | reflexivity].
Qed.

Lemma reset_same_contents b1 b2 :
  option_map contents (fileStream b1) = option_map contents (fileStream b2) ->
  fileStream (snd (reset b1)) = fileStream (snd (reset b2)).
Proof.
  intros H. destruct (fileStream b1) as [s1|] eqn:H1, (fileStream b2) as [s2|] eqn:H2;
    try discriminate.
  - rewrite (reset_open b1 s1 H1), (reset_open b2 s2 H2).
    injection H as Hc. unfold rewind. rewrite Hc. reflexivity.
  - rewrite (reset_closed b1 H1), (reset_closed b2 H2), H1, H2. reflexivity.
Qed.

Lemma gather_same_contents b1 b2 :
  option_map contents (fileStream b1) = option_map contents (fileStream b2) ->
  fst (gatherAllRecords b1) = fst (gatherAllRecords b2).
Proof.
  intros H. pose proof (reset_same_contents b1 b2 H) as Hr.
  unfold gatherAllRecords. rewrite (lines_left_same_stream _ _ Hr).
  pose proof (gather_loop_same_stream (S (lines_left (snd (reset b2))))
                (snd (reset b1)) (snd (reset b2)) default_record [] Hr) as Hg.
  destruct (gather_loop _ (snd (reset b1)) default_record []).
  destruct (gather_loop _ (snd (reset b2)) default_record []).
  exact Hg.
Qed.

Lemma reset_keeps_contents b :
  option_map contents (fileStream (snd (reset b))) = option_map contents (fileStream b).
Proof.
  destruct (fileStream b) as [s|] eqn:H.
  - rewrite (reset_open b s H). simpl. f_equal. apply getline_rewind_contents.
  - rewrite (reset_closed b H), H. reflexivity.
Qed.

Lemma readRecord_keeps_contents b record :
  option_map contents (fileStream (snd (readRecord b record))) = option_map contents (fileStream b).
Proof.
  unfold readRecord. destruct (fileStream b) as [s|] eqn:H.
  - pose proof (readRecord_fuel_inv (S (lines_left b)) b s record H) as Hinv.
    destruct (readRecord_fuel _ b record) as [[ok r'] b'].
    destruct Hinv as (s' & Hs' & Hc & _). simpl. rewrite Hs'. simpl. rewrite Hc. reflexivity.
  - rewrite readRecord_fuel_closed by exact H. simpl. rewrite H. reflexivity.
Qed.

Lemma gather_loop_keeps_contents fuel : forall b record acc,
  option_map contents (fileStream (snd (gather_loop fuel b record acc))) =
  option_map contents (fileStream b).
Proof.
  induction fuel as [|fuel IH]; intros b record acc; simpl; [reflexivity|].
  pose proof (readRecord_keeps_contents b record) as Hk.
  destruct (readRecord b record) as [[[|] r'] b']; simpl in Hk.
  - rewrite IH. exact Hk.
  - exact Hk.
Qed.

Lemma gather_keeps_contents b :
  option_map contents (fileStream (snd (gatherAllRecords b))) = option_map contents (fileStream b).
Proof.
  unfold gatherAllRecords.
  pose proof (gather_loop_keeps_contents (S (lines_left (snd (reset b)))) (snd (reset b))
                default_record []) as Hk.
  destruct (gather_loop _ (snd (reset b)) default_record []) as [records b2].
  simpl in *. rewrite reset_keeps_contents, Hk. apply reset_keeps_contents.
Qed.

(** C9. [reset] after [gatherAllRecords], then [gatherAllRecords] again,
    gives the same records as the first [gatherAllRecords]. *)
Theorem gather_reset_gather b :
  fst (gatherAllRecords (snd (reset (snd (gatherAllRecords b))))) = fst (gatherAllRecords b).
Proof.
  apply gather_same_contents. rewrite reset_keeps_contents. apply gather_keeps_contents.
Qed.

(* ------------------------------------------------------------------ *)
(** ** Exit status of main *)

Lemma main_two_args fs prog path :
  main fs [prog; path] =
  let '(ok, buffer) := open fs new_buffer path in
  if negb ok then 2
  else match fst (gatherAllRecords buffer) with [] => 3 | _ :: _ => 0 end.
Proof.
  unfold main. simpl.
  destruct (open fs new_buffer path) as [[|] buffer]; simpl; [|reflexivity].
  destruct (gatherAllRecords buffer) as [[|r rs] b']; reflexivity.
Qed.

(** C8. [main] exits with 1 unless given exactly one argument, with 2
    when [open] fails (in particular when the file cannot be opened), with
    3 when [gatherAllRecords] returns no record and with 0 otherwise; a
    file holding only a header line gives no record and exit status 3. *)
Theorem main_exit_codes :
  (forall fs argv, List.length argv <> 2%nat -> main fs argv = 1) /\
  (forall fs prog path, fst (open fs new_buffer path) = false -> main fs [prog; path] = 2) /\
  (forall fs prog path, fs path = None -> main fs [prog; path] = 2) /\
  (forall fs prog path, fst (open fs new_buffer path) = true ->
     fst (gatherAllRecords (snd (open fs new_buffer path))) = [] -> main fs [prog; path] = 3) /\
  (forall fs prog path, fst (open fs new_buffer path) = true ->
     fst (gatherAllRecords (snd (open fs new_buffer path))) <> [] -> main fs [prog; path] = 0) /\
  (forall fs prog path hdr, fs path = Some [hdr] ->
     fst (gatherAllRecords (snd (open fs new_buffer path))) = [] /\ main fs [prog; path] = 3).
Proof.
  split; [|split; [|split; [|split; [|split]]]].
  - intros fs argv H. unfold main. apply Nat.eqb_neq in H. rewrite H. reflexivity.
  - intros fs prog path H. rewrite main_two_args.
    destruct (open fs new_buffer path) as [ok b]. simpl in H. subst ok. reflexivity.
  - intros fs prog path H. rewrite main_two_args. unfold open. rewrite H. reflexivity.
  - intros fs prog path Hok Hg. rewrite main_two_args.
    destruct (open fs new_buffer path) as [ok b]. simpl in *. subst ok. rewrite Hg. reflexivity.
  - intros fs prog path Hok Hg. rewrite main_two_args.
    destruct (open fs new_buffer path) as [ok b]. simpl in *. subst ok.
    destruct (fst (gatherAllRecords b)); [contradiction|reflexivity].
  - intros fs prog path hdr H.
    assert (Hg : fst (gatherAllRecords (snd (open fs new_buffer path))) = []).
    { unfold open. rewrite H. reflexivity. }
    split; [exact Hg|]. rewrite main_two_args.
    assert (Ho : fst (open fs new_buffer path) = true) by (unfold open; rewrite H; reflexivity).
    destruct (open fs new_buffer path) as [ok b]. simpl in *. subst ok. rewrite Hg. reflexivity.
Qed.

(* ================================================================== *)
(** * Witnesses *)

Lemma splitCSV_quote_toggle_witness :
  string_of_list_ascii (join_fields ab_pieces) = ("a," ++ qstr "b,c")%string /\
  splitCSV (string_of_list_ascii (join_fields ab_pieces)) = ["a"; "b,c"]%string.
Proof.
  split; [vm_compute; reflexivity|].
  rewrite (proj1 (proj2 splitCSV_quote_toggle) ab_pieces);
    [vm_compute; reflexivity | discriminate | repeat constructor | repeat constructor].
Defined.

Lemma tie_break_smaller_zip_wins_witness :
  (minLongitude (update_extremes rec_10005 ext_10023) = Fin (-74) /\
   easternmost (update_extremes rec_10005 ext_10023) = 10005) /\
  ((exists e, map_find "NY" (calculateStateExtremes
                 [mkRecord 10023 "A" "NY" "B" (Fin 40) (Fin (-74));
                  mkRecord 10005 "C" "NY" "D" (Fin 41) (Fin (-74))]) = Some e /\
              easternmost e = 10005 /\ westernmost e = 10005) /\
   (exists e, map_find "NY" (calculateStateExtremes
                 [mkRecord 10005 "C" "NY" "D" (Fin 41) (Fin (-74));
                  mkRecord 10023 "A" "NY" "B" (Fin 40) (Fin (-74))]) = Some e /\
              easternmost e = 10005 /\ westernmost e = 10005)).
Proof.
  destruct tie_break_smaller_zip_wins as [H1 [_ [_ [_ H5]]]].
  split.
  - destruct (H1 rec_10005 ext_10023 ltac:(vm_compute; reflexivity)) as [A B].
    split; [exact A|]. rewrite B. vm_compute. reflexivity.
  - apply (H5 "NY"%string "A"%string "B"%string (Fin 40) "C"%string "D"%string (Fin 41) (Fin (-74))).
    vm_compute. reflexivity.
Defined.

Lemma parseLine_accepts_six_numeric_fields_witness :
  stoi "abc" = None /\
  stoi (string_of_list_ascii (list_ascii_of_string "12" ++ list_ascii_of_string "abc")) = Some 12 /\
  fst (parseLine good_line default_record) = true /\
  exists l, In l (tl good_file) /\
    List.length (splitCSV l) = 6%nat /\
    stoi (trim (nth 0 (splitCSV l) EmptyString)) <> None /\
    parseLine l default_record = (true, good_record).
Proof.
  destruct parseLine_accepts_six_numeric_fields as [H1 [H2 [H3 H4]]]. split; [|split; [|split]].
  - apply H3. vm_compute. reflexivity.
  - apply H4; [repeat constructor; vm_compute; discriminate | vm_compute; reflexivity |
               vm_compute; reflexivity].
  - apply (proj2 (H1 good_line default_record)).
    vm_compute. repeat split; discriminate.
  - apply (H2 (opened "data.csv" good_file) (mkStream good_file (tl good_file) false) good_record).
    + vm_compute. reflexivity.
    + vm_compute. left. reflexivity.
Defined.

Lemma readRecord_returns_bool_witness :
  readRecord new_buffer default_record = (false, default_record, new_buffer) /\
  fst (readRecord (buffer_at []) default_record) = (false, default_record) /\
  fst (readRecord (snd (readRecord (buffer_at []) default_record)) default_record) =
    (false, default_record) /\
  fst (readRecord (buffer_at [five_fields]) default_record) = parseLine five_fields default_record.
Proof.
  destruct readRecord_returns_bool as [H1 [H2 H3]]. split; [|split; [|split]].
  - apply H1. reflexivity.
  - apply (H2 (buffer_at []) (mkStream ["hdr"%string] [] false) default_record []);
      [reflexivity | reflexivity | constructor].
  - apply (H2 (snd (readRecord (buffer_at []) default_record)) (mkStream ["hdr"%string] [] true)
             default_record []);
      [vm_compute; reflexivity | reflexivity | constructor].
  - apply (H3 (buffer_at [five_fields]) (mkStream ["hdr"%string; five_fields] [five_fields] false)
             default_record [] five_fields []);
      [reflexivity | reflexivity | reflexivity | constructor | vm_compute; reflexivity].
Defined.

Lemma readRecord_consumes_malformed_line_witness :
  exists r' b', readRecord (buffer_at [five_fields; good_line]) default_record = (false, r', b') /\
    fileStream b' = Some (mkStream ["hdr"%string; five_fields; good_line] [good_line] false) /\
    (forall l' rest' record', [good_line] = l' :: rest' -> blank l' = false ->
       fst (readRecord b' record') = parseLine l' record').
Proof.
  apply (readRecord_consumes_malformed_line (buffer_at [five_fields; good_line])
           (mkStream ["hdr"%string; five_fields; good_line] [five_fields; good_line] false)
           default_record [] five_fields [good_line]);
    [reflexivity | reflexivity | reflexivity | constructor | vm_compute; reflexivity
    | vm_compute; reflexivity].
Defined.

Lemma main_exit_codes_witness :
  main (fs_of "data.csv" ["hdr"%string]) ["zip"%string] = 1 /\
  main (fs_of "data.csv" ["hdr"%string]) ["zip"; "missing.csv"]%string = 2 /\
  main (fs_of "data.csv" good_file) ["zip"; "data.csv"]%string = 0 /\
  (fst (gatherAllRecords (snd (open (fs_of "data.csv" ["hdr"%string]) new_buffer "data.csv"))) = [] /\
   main (fs_of "data.csv" ["hdr"%string]) ["zip"; "data.csv"]%string = 3).
Proof.
  destruct main_exit_codes as [H1 [_ [H3 [_ [H5 H6]]]]].
  split; [|split; [|split]].
  - apply H1. simpl. discriminate.
  - apply H3. reflexivity.
  - apply H5; vm_compute; [reflexivity | discriminate].
  - apply (H6 _ _ _ "hdr"%string). reflexivity.
Defined.

(* ================================================================== *)
(** * Further properties of the reader *)

Lemma split_blanks lines : exists blanks rest,
  lines = blanks ++ rest /\ Forall (fun x => blank x = true) blanks /\
  (rest = [] \/ exists l r, rest = l :: r /\ blank l = false).
Proof.
  induction lines as [|l lines IH].
  - exists [], []. auto.
  - destruct (blank l) eqn:Hl.
    + destruct IH as (bs & rest & -> & Hbs & Hrest).
      exists (l :: bs), rest. simpl. auto.
    + exists [], (l :: lines). simpl. split; [reflexivity|]. split; [constructor|].
      right. eauto.
Qed.

Lemma expected_records_blanks blanks rest :
  Forall (fun x => blank x = true) blanks ->
  expected_records (blanks ++ rest) = expected_records rest.
Proof.
  induction 1 as [|x bs Hx _ IH]; [reflexivity|]. simpl. rewrite Hx. exact IH.
Qed.

Lemma expected_records_all_blank blanks :
  Forall (fun x => blank x = true) blanks -> expected_records blanks = [].
Proof. intros H. rewrite <- (app_nil_r blanks). rewrite expected_records_blanks by exact H. reflexivity. Qed.

Lemma parseLine_fail_any_record line r0 r1 :
  fst (parseLine line r0) = false -> fst (parseLine line r1) = false.
Proof.
  intros H. destruct (parseLine line r1) as [[|] r] eqn:E; [|reflexivity].
  apply (parseLine_ok_any_record line r1 r0) in E. rewrite E in H. discriminate.
Qed.

Lemma gather_loop_expected n : forall fuel b s record acc,
  fileStream b = Some s -> failbit s = false ->
  (List.length (remaining s) <= n)%nat -> (n < fuel)%nat ->
  fst (gather_loop fuel b record acc) = acc ++ expected_records (remaining s).
Proof.
  induction n as [|n IH]; intros fuel b s record acc Hb Hf Hlen Hfuel;
    (destruct fuel as [|fuel]; [lia|]); simpl;
    destruct (split_blanks (remaining s)) as (bs & rest & Hr & Hbs & [->|(l & r & -> & Hl)]).
  - unfold readRecord. rewrite app_nil_r in Hr.
    rewrite (readRecord_fuel_eof bs _ b s record Hb Hf Hr Hbs)
      by (rewrite (lines_left_open b s Hb), Hr; lia).
    rewrite Hr, expected_records_all_blank by exact Hbs. simpl. rewrite app_nil_r. reflexivity.
  - rewrite Hr, length_app in Hlen. simpl in Hlen. lia.
  - unfold readRecord. rewrite app_nil_r in Hr.
    rewrite (readRecord_fuel_eof bs _ b s record Hb Hf Hr Hbs)
      by (rewrite (lines_left_open b s Hb), Hr; lia).
    rewrite Hr, expected_records_all_blank by exact Hbs. simpl. rewrite app_nil_r. reflexivity.
  - unfold readRecord.
    rewrite (readRecord_fuel_line bs _ b s record l r Hb Hf Hr Hbs Hl)
      by (rewrite (lines_left_open b s Hb), Hr, length_app; simpl; lia).
    rewrite Hr, expected_records_blanks by exact Hbs. simpl. rewrite Hl.
    destruct (parseLine l record) as [[|] r'] eqn:Hp; simpl.
    + rewrite (parseLine_ok_any_record l record default_record r' Hp).
      rewrite (IH fuel _ (mkStream (contents s) r false)); simpl; auto.
      * rewrite <- app_assoc. reflexivity.
      * rewrite Hr, length_app in Hlen. simpl in Hlen. lia.
      * lia.
    + assert (Hd : fst (parseLine l default_record) = false)
        by (apply (parseLine_fail_any_record l record); rewrite Hp; reflexivity).
      destruct (parseLine l default_record) as [[|] ?]; [discriminate|].
      rewrite app_nil_r. reflexivity.
Qed.

Lemma gather_result_expected b s :
  fileStream b = Some s ->
  fst (gatherAllRecords b) = expected_records (tl (contents s)).
Proof.
  intros Hb. unfold gatherAllRecords.
  pose proof (reset_open b s Hb) as Hr.
  destruct (contents s) as [|h t] eqn:Hc.
  - (* no header line: the stream stays failed *)
    assert (Hs' : snd (getline (rewind s)) = mkStream [] [] true)
      by (unfold getline, rewind; rewrite Hc; reflexivity).
    rewrite Hs' in Hr.
    destruct (gather_loop (S (lines_left (snd (reset b)))) (snd (reset b)) default_record [])
      as [records b2] eqn:Hg. simpl.
    unfold lines_left in Hg. rewrite Hr in Hg. simpl in Hg.
    unfold readRecord, lines_left in Hg. rewrite Hr in Hg. simpl in Hg.
    rewrite Hr in Hg. simpl in Hg. injection Hg as <- _. reflexivity.
  - assert (Hs' : snd (getline (rewind s)) = mkStream (h :: t) t false)
      by (unfold getline, rewind; rewrite Hc; reflexivity).
    rewrite Hs' in Hr.
    pose proof (gather_loop_expected (List.length t) (S (lines_left (snd (reset b))))
                  (snd (reset b)) (mkStream (h :: t) t false) default_record [] Hr
                  eq_refl (le_n _)) as Hg.
    rewrite (lines_left_open _ _ Hr) in Hg |- *.
    change (remaining (mkStream (h :: t) t false)) with t in Hg |- *.
    destruct (gather_loop (S (List.length t)) (snd (reset b)) default_record []) as [records b2].
    cbn [fst] in Hg |- *. apply Hg. lia.
Qed.

(** X1: [gatherAllRecords] on an open file returns the records of the
    non-blank lines after the header, in file order, up to (and without)
    the first non-blank line that fails to parse. *)
Theorem gatherAllRecords_result b s :
  fileStream b = Some s ->
  fst (gatherAllRecords b) = expected_records (tl (contents s)).
Proof. exact (gather_result_expected b s). Qed.

(** X2: when every non-blank line after the header parses, [gatherAllRecords]
    returns the records of all of them, in file order. *)
Theorem gatherAllRecords_all_valid b s :
  fileStream b = Some s ->
  Forall (fun l => blank l = false -> fst (parseLine l default_record) = true) (tl (contents s)) ->
  fst (gatherAllRecords b) =
  map (fun l => snd (parseLine l default_record)) (filter (fun l => negb (blank l)) (tl (contents s))).
Proof.
  intros Hb Hall. rewrite (gather_result_expected b s Hb).
  induction Hall as [|l ls Hl _ IH]; [reflexivity|].
  simpl. destruct (blank l) eqn:Eb; simpl; [exact IH|].
  specialize (Hl eq_refl).
  destruct (parseLine l default_record) as [[|] r]; [|discriminate].
  simpl. rewrite IH. reflexivity.
Qed.

(** X3: [open] succeeds exactly when the file can be opened and has a
    first (header) line; it then holds the file open just after that line,
    with the path as file name and a zero record count, whatever the buffer
    held before. Otherwise it fails and no stream is left open. *)
Theorem open_outcome fs b path :
  open fs b path = open fs new_buffer path /\
  match fs path with
  | Some (h :: t) => open fs b path = (true, mkBuffer (Some (mkStream (h :: t) t false)) path true 0)
  | _ => fst (open fs b path) = false /\ isOpen (snd (open fs b path)) = false
  end.
Proof.
  split; [reflexivity|].
  unfold open. destruct (fs path) as [[|h t]|]; simpl; auto.
Qed.

Lemma reset_cases b :
  match fileStream b with
  | None => reset b = (false, b)
  | Some s =>
      match contents s with
      | [] => fst (reset b) = false /\ recordCount (snd (reset b)) = recordCount b /\
              isOpen (snd (reset b)) = true
      | h :: t => reset b = (true, mkBuffer (Some (mkStream (h :: t) t false))
                                          (filename b) (headerSkipped b) 0)
      end
  end.
Proof.
  unfold reset. destruct (fileStream b) as [s|]; [|reflexivity].
  unfold getline, rewind. simpl. destruct (contents s); simpl; auto.
Qed.

(** X4: [reset] fails and changes nothing when no file is open; fails,
    keeping the record count, when the file has no line; and otherwise
    positions the stream just after the header, clears the fail bit and
    sets the record count to zero. *)
Theorem reset_outcome b :
  match fileStream b with
  | None => reset b = (false, b)
  | Some s =>
      match contents s with
      | [] => fst (reset b) = false /\ recordCount (snd (reset b)) = recordCount b /\
              isOpen (snd (reset b)) = true
      | h :: t => reset b = (true, mkBuffer (Some (mkStream (h :: t) t false))
                                          (filename b) (headerSkipped b) 0)
      end
  end.
Proof. exact (reset_cases b). Qed.

(** X5: [readRecord] adds one to the record count exactly when it returns
    true. *)
Theorem readRecord_count b record :
  recordCount (snd (readRecord b record)) =
  recordCount b + (if fst (fst (readRecord b record)) then 1 else 0).
Proof.
  unfold readRecord. generalize (S (lines_left b)) as fuel.
  intros fuel. revert b. induction fuel as [|fuel IH]; intros b; simpl;
    destruct (fileStream b) as [s|]; simpl; try lia;
    destruct (getline s) as [[line|] s']; simpl; try lia;
    destruct (blank line); simpl; try lia;
    try (destruct (parseLine line record) as [[|] r']; simpl; lia).
  rewrite IH. reflexivity.
Qed.

Lemma readRecord_fuel_filename fuel : forall b record,
  filename (snd (readRecord_fuel fuel b record)) = filename b /\
  headerSkipped (snd (readRecord_fuel fuel b record)) = headerSkipped b.
Proof.
  induction fuel as [|fuel IH]; intros b record; simpl;
    destruct (fileStream b) as [s|]; simpl; auto;
    destruct (getline s) as [[line|] s']; simpl; auto;
    destruct (blank line); simpl; auto;
    try (destruct (parseLine line record) as [[|] r']; simpl; auto).
  all: destruct (IH (set_stream b s') record) as [A B]; rewrite A, B; auto.
Qed.

Lemma gather_loop_filename fuel : forall b record acc,
  filename (snd (gather_loop fuel b record acc)) = filename b /\
  headerSkipped (snd (gather_loop fuel b record acc)) = headerSkipped b.
Proof.
  induction fuel as [|fuel IH]; intros b record acc; simpl; auto.
  unfold readRecord.
  pose proof (readRecord_fuel_filename (S (lines_left b)) b record) as [F H].
  destruct (readRecord_fuel (S (lines_left b)) b record) as [[[|] r'] b']; simpl in *.
  - destruct (IH b' r' (acc ++ [r'])) as [F' H']. rewrite F', H'. auto.
  - auto.
Qed.

(** X6: after [gatherAllRecords] on an open file with a header line, the
    buffer is as right after [open]: same file and file name, stream just
    after the header, record count zero. *)
Theorem gatherAllRecords_final_state b s h t :
  fileStream b = Some s -> contents s = h :: t ->
  snd (gatherAllRecords b) =
  mkBuffer (Some (mkStream (h :: t) t false)) (filename b) (headerSkipped b) 0.
Proof.
  intros Hb Hc. unfold gatherAllRecords.
  pose proof (reset_cases b) as Hr0. rewrite Hb, Hc in Hr0. rewrite Hr0.
  cbn [snd].
  set (b1 := mkBuffer (Some (mkStream (h :: t) t false)) (filename b) (headerSkipped b) 0).
  pose proof (gather_loop_keeps_contents (S (lines_left b1)) b1 default_record []) as Hk.
  pose proof (gather_loop_filename (S (lines_left b1)) b1 default_record []) as [F H].
  destruct (gather_loop (S (lines_left b1)) b1 default_record []) as [records b2].
  cbn [snd] in Hk, F, H |- *.
  pose proof (reset_cases b2) as Hr2.
  destruct (fileStream b2) as [s2|]; [|discriminate].
  cbn [option_map] in Hk. injection Hk as Hk. rewrite Hk in Hr2. rewrite Hr2.
  cbn [snd]. rewrite F, H. reflexivity.
Qed.

Lemma drop_ws_split cs :
  exists pre, cs = pre ++ drop_ws cs /\ Forall (fun c => is_trim_ws c = true) pre /\
    match drop_ws cs with [] => True | c :: _ => is_trim_ws c = false end.
Proof.
  induction cs as [|c cs IH]; simpl.
  - exists []. auto.
  - destruct (is_trim_ws c) eqn:Ec.
    + destruct IH as (pre & H1 & H2 & H3). exists (c :: pre). simpl. rewrite <- H1. auto.
    + exists []. simpl. auto.
Qed.

(** X7: [trim] removes exactly a leading and a trailing run of the
    characters space, tab, CR and LF: the input is a prefix of such
    characters, the result, and a suffix of such characters, and the
    result neither starts nor ends with one of them. *)
Theorem trim_spec str :
  exists pre suf,
    list_ascii_of_string str = pre ++ list_ascii_of_string (trim str) ++ suf /\
    Forall (fun c => is_trim_ws c = true) pre /\
    Forall (fun c => is_trim_ws c = true) suf /\
    (forall c rest, list_ascii_of_string (trim str) = c :: rest -> is_trim_ws c = false) /\
    (forall rest c, list_ascii_of_string (trim str) = rest ++ [c] -> is_trim_ws c = false).
Proof.
  unfold trim. rewrite list_ascii_of_string_of_list_ascii.
  set (l := list_ascii_of_string str).
  destruct (drop_ws_split l) as (p1 & E1 & F1 & H1).
  set (d1 := drop_ws l) in *.
  destruct (drop_ws_split (rev d1)) as (p2 & E2 & F2 & H2).
  set (d2 := drop_ws (rev d1)) in *.
  assert (Ed1 : d1 = rev d2 ++ rev p2)
    by (rewrite <- rev_app_distr, <- E2, rev_involutive; reflexivity).
  exists p1, (rev p2). split; [|split; [|split; [|split]]].
  - rewrite E1 at 1. rewrite Ed1. reflexivity.
  - exact F1.
  - apply Forall_rev. exact F2.
  - intros c rest Hc. rewrite Ed1, Hc in H1. exact H1.
  - intros rest c Hc. assert (Hd2 : d2 = c :: rev rest)
      by (rewrite <- (rev_involutive d2), Hc, rev_app_distr; reflexivity).
    rewrite Hd2 in H2. exact H2.
Qed.

(** X8: [parseLine] leaves the record untouched when the line does not
    have six fields or the code field does not convert; when the code
    converts but the latitude or the longitude does not, it still returns
    false, with the code, place, state and county already written into the
    record (and, for a bad longitude, the latitude too). *)
Theorem parseLine_failure_effects line record :
  let fields := splitCSV line in
  (List.length fields <> 6%nat \/ stoi (trim (nth 0 fields EmptyString)) = None ->
     parseLine line record = (false, record)) /\
  (forall z, List.length fields = 6%nat -> stoi (trim (nth 0 fields EmptyString)) = Some z ->
     stod (trim (nth 4 fields EmptyString)) = None ->
     parseLine line record =
       (false, mkRecord z (trim (nth 1 fields EmptyString)) (trim (nth 2 fields EmptyString))
                 (trim (nth 3 fields EmptyString)) (latitude record) (longitude record))) /\
  (forall z lat, List.length fields = 6%nat -> stoi (trim (nth 0 fields EmptyString)) = Some z ->
     stod (trim (nth 4 fields EmptyString)) = Some lat ->
     stod (trim (nth 5 fields EmptyString)) = None ->
     parseLine line record =
       (false, mkRecord z (trim (nth 1 fields EmptyString)) (trim (nth 2 fields EmptyString))
                 (trim (nth 3 fields EmptyString)) lat (longitude record))).
Proof.
  cbv zeta. unfold parseLine. split; [|split].
  - intros [H|H].
    + apply Nat.eqb_neq in H. rewrite H. reflexivity.
    + destruct (List.length (splitCSV line) =? 6)%nat; [|reflexivity]. simpl. rewrite H. reflexivity.
  - intros z H6 Hz H4. rewrite H6, Hz, H4. reflexivity.
  - intros z lat H6 Hz H4 H5. rewrite H6, Hz, H4, H5. reflexivity.
Qed.

(* ------------------------------------------------------------------ *)
(** ** The map built by calculateStateExtremes *)

Lemma string_lt_trans s1 s2 s3 :
  String.compare s1 s2 = Lt -> String.compare s2 s3 = Lt -> String.compare s1 s3 = Lt.
Proof.
  revert s2 s3. induction s1 as [|a s1 IH]; intros [|b s2] [|c s3]; simpl;
    try discriminate; try reflexivity.
  unfold Ascii.compare.
  destruct (N.compare_spec (N_of_ascii a) (N_of_ascii b)) as [Hab|Hab|Hab]; intros H1;
    try discriminate;
    destruct (N.compare_spec (N_of_ascii b) (N_of_ascii c)) as [Hbc|Hbc|Hbc]; intros H2;
    try discriminate.
  - rewrite Hab, Hbc, N.compare_refl. eauto.
  - rewrite Hab. rewrite (proj2 (N.compare_lt_iff _ _) Hbc). reflexivity.
  - rewrite (proj2 (N.compare_lt_iff _ _)) by lia. reflexivity.
  - rewrite (proj2 (N.compare_lt_iff _ _)) by lia. reflexivity.
Qed.

Lemma string_ltb_lt s1 s2 : String.ltb s1 s2 = true <-> String.compare s1 s2 = Lt.
Proof.
  unfold String.ltb. destruct (String.compare s1 s2); split; congruence.
Qed.

Lemma map_update_keys k f m x :
  In x (map fst (map_update k f m)) <-> x = k \/ In x (map fst m).
Proof.
  induction m as [|[k' v] m IH]; simpl; [intuition congruence|].
  destruct (String.compare k k') eqn:C; simpl.
  - apply String.compare_eq_iff in C. subst k'. intuition congruence.
  - intuition congruence.
  - rewrite IH. intuition congruence.
Qed.

Lemma map_update_sorted k f m :
  keys_sorted m = true -> keys_sorted (map_update k f m) = true.
Proof.
  induction m as [|[k' v] m IH]; simpl; [reflexivity|].
  intros H. apply andb_true_iff in H as [Hf Hs].
  destruct (String.compare k k') eqn:C; simpl.
  - apply String.compare_eq_iff in C. subst k'. rewrite Hf, Hs. reflexivity.
  - rewrite Hf, Hs. simpl. rewrite andb_true_r.
    apply andb_true_iff. split; [apply string_ltb_lt; exact C|].
    apply forallb_forall. intros p Hp. apply string_ltb_lt.
    rewrite forallb_forall in Hf. specialize (Hf p Hp). apply string_ltb_lt in Hf.
    eapply string_lt_trans; eauto.
  - rewrite (IH Hs), andb_true_r.
    apply forallb_forall. intros [x w] Hp. apply string_ltb_lt. simpl.
    assert (Hx : In x (map fst (map_update k f m))) by (apply (in_map fst) in Hp; exact Hp).
    apply map_update_keys in Hx as [->|Hx].
    + rewrite String.compare_antisym, C. reflexivity.
    + apply in_map_iff in Hx as ([x' w'] & Ex & Hin). simpl in Ex. subst x'.
      rewrite forallb_forall in Hf. apply string_ltb_lt. exact (Hf _ Hin).
Qed.

Lemma map_find_none k m :
  (forall p, In p m -> String.compare k (fst p) = Lt) -> map_find k m = None.
Proof.
  induction m as [|[k' v] m IH]; intros H; simpl; [reflexivity|].
  destruct (String.eqb_spec k k') as [->|Hne].
  - specialize (H (k', v) (or_introl eq_refl)). simpl in H.
    rewrite string_compare_refl in H. discriminate.
  - apply IH. intros p Hp. apply H. right. exact Hp.
Qed.

Lemma map_find_update k f m k0 :
  keys_sorted m = true ->
  map_find k0 (map_update k f m) =
  if String.eqb k0 k
  then Some (f (match map_find k m with Some v => v | None => default_extremes end))
  else map_find k0 m.
Proof.
  induction m as [|[k' v] m IH]; simpl; intros Hs.
  - destruct (String.eqb k0 k); reflexivity.
  - apply andb_true_iff in Hs as [Hf Hs].
    destruct (String.compare k k') eqn:C.
    + apply String.compare_eq_iff in C. subst k'. simpl.
      rewrite String.eqb_refl. destruct (String.eqb k0 k); reflexivity.
    + assert (Hn : map_find k ((k', v) :: m) = None).
      { apply map_find_none. intros p [<-|Hp]; [exact C|].
        rewrite forallb_forall in Hf. specialize (Hf p Hp). apply string_ltb_lt in Hf.
        eapply string_lt_trans; eauto. }
      simpl in Hn. simpl. rewrite Hn. reflexivity.
    + simpl. rewrite (IH Hs).
      assert (Hkk : String.eqb k k' = false).
      { apply String.eqb_neq. intros ->. rewrite string_compare_refl in C. discriminate. }
      rewrite Hkk.
      destruct (String.eqb_spec k0 k') as [E1|Hne1]; destruct (String.eqb_spec k0 k) as [E2|Hne2];
        try reflexivity.
      subst. rewrite String.eqb_refl in Hkk. discriminate.
Qed.

Lemma calculate_fold records : forall m,
  keys_sorted m = true ->
  let m' := fold_left (fun m record => map_update (state record) (update_extremes record) m) records m in
  keys_sorted m' = true /\
  (forall x, In x (map fst m') <-> In x (map fst m) \/ exists r, In r records /\ state r = x) /\
  (forall st, map_find st m' =
     match state_records st records with
     | [] => map_find st m
     | l => Some (fold_left (fun e r => update_extremes r e) l
                   (match map_find st m with Some v => v | None => default_extremes end))
     end).
Proof.
  induction records as [|r records IH]; intros m Hs; cbv zeta; simpl.
  - split; [exact Hs|]. split; [|reflexivity]. intros x. split; [tauto|].
    intros [H|(r & [] & _)]. exact H.
  - destruct (IH (map_update (state r) (update_extremes r) m) (map_update_sorted _ _ _ Hs))
      as (Hs' & Hk & Hf).
    split; [exact Hs'|]. split.
    + intros x. rewrite Hk, map_update_keys. split.
      * intros [[->|H]|(r' & H1 & H2)]; eauto.
      * intros [H|(r' & [<-|H1] & H2)]; eauto.
    + intros st. rewrite Hf, (map_find_update _ _ _ _ Hs).
      rewrite String.eqb_sym.
      destruct (String.eqb_spec (state r) st) as [<-|Hne]; [|reflexivity].
      destruct (state_records (state r) records); reflexivity.
Qed.

(** X9: [calculateStateExtremes] builds one entry per state that occurs in
    the records and no other, with keys in strictly increasing order; the
    entry of a state is what the loop body computes from the default
    extremes over that state's records alone, in input order, so records
    of other states never affect it. *)
Theorem calculateStateExtremes_groups records :
  keys_sorted (calculateStateExtremes records) = true /\
  (forall st, In st (map fst (calculateStateExtremes records)) <->
              exists r, In r records /\ state r = st) /\
  (forall st, map_find st (calculateStateExtremes records) =
     match state_records st records with
     | [] => None
     | l => Some (fold_left (fun e r => update_extremes r e) l default_extremes)
     end).
Proof.
  destruct (calculate_fold records [] eq_refl) as (Hs & Hk & Hf).
  split; [exact Hs|]. split.
  - intros st. rewrite Hk. simpl. tauto.
  - intros st. rewrite Hf. reflexivity.
Qed.

(* ------------------------------------------------------------------ *)
(** ** The four slots of a state's entry *)

Lemma fold_update_slots records : forall e,
  let u := fold_left (fun e r => update_extremes r e) records e in
  (minLongitude u, easternmost u) =
    min_fold (map (fun r => (longitude r, zipCode r)) records) (minLongitude e, easternmost e) /\
  (maxLongitude u, westernmost u) =
    max_fold (map (fun r => (longitude r, zipCode r)) records) (maxLongitude e, westernmost e) /\
  (maxLatitude u, northernmost u) =
    max_fold (map (fun r => (latitude r, zipCode r)) records) (maxLatitude e, northernmost e) /\
  (minLatitude u, southernmost u) =
    min_fold (map (fun r => (latitude r, zipCode r)) records) (minLatitude e, southernmost e).
Proof.
  unfold min_fold, max_fold.
  induction records as [|r records IH]; intros e; cbv zeta; simpl; [auto|].
  destruct (update_extremes_fields r e) as (H1 & H2 & H3 & H4). cbv zeta in H1, H2, H3, H4.
  rewrite <- H1, <- H2, <- H3, <- H4. apply IH.
Qed.

Lemma slot_in_snoc {A} (P : list A) x p : In p (P ++ [x]) <-> In p P \/ p = x.
Proof. rewrite in_app_iff. simpl. intuition congruence. Qed.

Lemma min_block_step P v c x z :
  is_min_slot P v c -> c <> 0 -> z <> 0 ->
  is_min_slot (P ++ [(x, z)]) (fst (min_block v c x z)) (snd (min_block v c x z)) /\
  snd (min_block v c x z) <> 0.
Proof.
  intros (Hle & (w & Hw & Hwv & Hwc) & Hmin) Hc Hz.
  unfold min_block, smallerZipWins.
  destruct (dlt x v) eqn:Exv; cbn [fst snd].
  - split; [|exact Hz]. split; [|split].
    + intros p Hp. apply slot_in_snoc in Hp as [Hp| ->]; cbn [fst]; [|apply dlt_irrefl].
      destruct (dlt (fst p) x) eqn:E; [|reflexivity].
      rewrite <- (Hle p Hp). symmetry. exact (dlt_trans _ _ _ E Exv).
    + exists (x, z). rewrite slot_in_snoc. cbn [fst snd].
      split; [auto | split; [exact (dlt_deq_refl_l _ _ Exv) | reflexivity]].
    + intros p Hp Hpv. apply slot_in_snoc in Hp as [Hp| ->]; cbn [snd]; [|lia].
      exfalso. pose proof (dlt_deq_l _ _ _ Hpv Exv) as H. rewrite (Hle p Hp) in H. discriminate.
  - destruct (deq x v) eqn:Eq; cbn [fst snd].
    + assert (Hc0 : (c =? 0) = false) by (apply Z.eqb_neq; exact Hc). rewrite Hc0.
      destruct (z <? c) eqn:Ezc; cbn [fst snd].
      * apply Z.ltb_lt in Ezc. split; [|exact Hz]. split; [|split].
        -- intros p Hp. apply slot_in_snoc in Hp as [Hp| ->]; cbn [fst]; auto.
        -- exists (x, z). rewrite slot_in_snoc. cbn [fst snd]. auto.
        -- intros p Hp Hpv. apply slot_in_snoc in Hp as [Hp| ->]; cbn [snd]; [|lia].
           specialize (Hmin p Hp Hpv). lia.
      * apply Z.ltb_ge in Ezc. split; [|exact Hc]. split; [|split].
        -- intros p Hp. apply slot_in_snoc in Hp as [Hp| ->]; cbn [fst]; auto.
        -- exists w. rewrite slot_in_snoc. auto.
        -- intros p Hp Hpv. apply slot_in_snoc in Hp as [Hp| ->]; cbn [snd]; auto.
    + split; [|exact Hc]. split; [|split].
      * intros p Hp. apply slot_in_snoc in Hp as [Hp| ->]; cbn [fst]; auto.
      * exists w. rewrite slot_in_snoc. auto.
      * intros p Hp Hpv. apply slot_in_snoc in Hp as [Hp| ->]; auto.
        cbn [fst] in Hpv. congruence.
Qed.

Lemma max_block_step P v c x z :
  is_max_slot P v c -> c <> 0 -> z <> 0 ->
  is_max_slot (P ++ [(x, z)]) (fst (max_block v c x z)) (snd (max_block v c x z)) /\
  snd (max_block v c x z) <> 0.
Proof.
  intros (Hle & (w & Hw & Hwv & Hwc) & Hmin) Hc Hz.
  unfold max_block, smallerZipWins.
  destruct (dlt v x) eqn:Evx; cbn [fst snd].
  - split; [|exact Hz]. split; [|split].
    + intros p Hp. apply slot_in_snoc in Hp as [Hp| ->]; cbn [fst]; [|apply dlt_irrefl].
      destruct (dlt x (fst p)) eqn:E; [|reflexivity].
      rewrite <- (Hle p Hp). symmetry. exact (dlt_trans _ _ _ Evx E).
    + exists (x, z). rewrite slot_in_snoc. cbn [fst snd].
      split; [auto | split; [exact (dlt_deq_refl_r _ _ Evx) | reflexivity]].
    + intros p Hp Hpv. apply slot_in_snoc in Hp as [Hp| ->]; cbn [snd]; [|lia].
      exfalso. rewrite deq_sym in Hpv.
      pose proof (dlt_deq_r _ _ _ Evx Hpv) as H. rewrite (Hle p Hp) in H. discriminate.
  - destruct (deq x v) eqn:Eq; cbn [fst snd].
    + assert (Hc0 : (c =? 0) = false) by (apply Z.eqb_neq; exact Hc). rewrite Hc0.
      destruct (z <? c) eqn:Ezc; cbn [fst snd].
      * apply Z.ltb_lt in Ezc. split; [|exact Hz]. split; [|split].
        -- intros p Hp. apply slot_in_snoc in Hp as [Hp| ->]; cbn [fst]; auto.
        -- exists (x, z). rewrite slot_in_snoc. cbn [fst snd]. auto.
        -- intros p Hp Hpv. apply slot_in_snoc in Hp as [Hp| ->]; cbn [snd]; [|lia].
           specialize (Hmin p Hp Hpv). lia.
      * apply Z.ltb_ge in Ezc. split; [|exact Hc]. split; [|split].
        -- intros p Hp. apply slot_in_snoc in Hp as [Hp| ->]; cbn [fst]; auto.
        -- exists w. rewrite slot_in_snoc. auto.
        -- intros p Hp Hpv. apply slot_in_snoc in Hp as [Hp| ->]; cbn [snd]; auto.
    + split; [|exact Hc]. split; [|split].
      * intros p Hp. apply slot_in_snoc in Hp as [Hp| ->]; cbn [fst]; auto.
      * exists w. rewrite slot_in_snoc. auto.
      * intros p Hp Hpv. apply slot_in_snoc in Hp as [Hp| ->]; auto.
        cbn [fst] in Hpv. congruence.
Qed.

Lemma min_fold_inv ps : forall P a,
  is_min_slot P (fst a) (snd a) -> snd a <> 0 -> Forall (fun p => snd p <> 0) ps ->
  is_min_slot (P ++ ps) (fst (min_fold ps a)) (snd (min_fold ps a)).
Proof.
  induction ps as [|[x z] ps IH]; intros P a Ha Hc Hps; simpl.
  - rewrite app_nil_r. exact Ha.
  - inversion Hps as [|? ? Hz Hps']; subst.
    destruct (min_block_step P (fst a) (snd a) x z Ha Hc Hz) as [H1 H2].
    replace (P ++ (x, z) :: ps) with ((P ++ [(x, z)]) ++ ps) by (rewrite <- app_assoc; reflexivity).
    apply (IH _ (min_block (fst a) (snd a) x z)); assumption.
Qed.

Lemma max_fold_inv ps : forall P a,
  is_max_slot P (fst a) (snd a) -> snd a <> 0 -> Forall (fun p => snd p <> 0) ps ->
  is_max_slot (P ++ ps) (fst (max_fold ps a)) (snd (max_fold ps a)).
Proof.
  induction ps as [|[x z] ps IH]; intros P a Ha Hc Hps; simpl.
  - rewrite app_nil_r. exact Ha.
  - inversion Hps as [|? ? Hz Hps']; subst.
    destruct (max_block_step P (fst a) (snd a) x z Ha Hc Hz) as [H1 H2].
    replace (P ++ (x, z) :: ps) with ((P ++ [(x, z)]) ++ ps) by (rewrite <- app_assoc; reflexivity).
    apply (IH _ (max_block (fst a) (snd a) x z)); assumption.
Qed.

Lemma min_fold_from_default ps :
  ps <> [] -> Forall (fun p => snd p <> 0 /\ dfinite (fst p) = true) ps ->
  is_min_slot ps (fst (min_fold ps (Fin DBL_MAX, 0))) (snd (min_fold ps (Fin DBL_MAX, 0))).
Proof.
  intros Hne Hps. destruct ps as [|[x z] ps]; [congruence|].
  inversion Hps as [|? ? [Hz Hx] Hps']; subst. cbn [fst snd] in Hz, Hx.
  destruct (min_block_fresh x z Hx) as [E1 E2].
  assert (E1' : deq x (fst (min_block (Fin DBL_MAX) 0 x z)) = true) by (rewrite deq_sym; exact E1).
  change (min_fold ((x, z) :: ps) (Fin DBL_MAX, 0)) with (min_fold ps (min_block (Fin DBL_MAX) 0 x z)).
  apply (min_fold_inv ps [(x, z)]).
  - split; [|split].
    + intros p [<-|[]]. cbn [fst]. exact (proj1 (deq_not_lt _ _ E1')).
    + exists (x, z). split; [left; reflexivity|]. cbn [fst snd]. split; [exact E1' | symmetry; exact E2].
    + intros p [<-|[]] _. cbn [snd]. rewrite E2. lia.
  - rewrite E2. exact Hz.
  - eapply Forall_impl; [|exact Hps']. intros p [H _]. exact H.
Qed.

Lemma max_fold_from_default ps :
  ps <> [] -> Forall (fun p => snd p <> 0 /\ dfinite (fst p) = true) ps ->
  is_max_slot ps (fst (max_fold ps (Fin DBL_LOWEST, 0))) (snd (max_fold ps (Fin DBL_LOWEST, 0))).
Proof.
  intros Hne Hps. destruct ps as [|[x z] ps]; [congruence|].
  inversion Hps as [|? ? [Hz Hx] Hps']; subst. cbn [fst snd] in Hz, Hx.
  destruct (max_block_fresh x z Hx) as [E1 E2].
  assert (E1' : deq x (fst (max_block (Fin DBL_LOWEST) 0 x z)) = true) by (rewrite deq_sym; exact E1).
  change (max_fold ((x, z) :: ps) (Fin DBL_LOWEST, 0)) with (max_fold ps (max_block (Fin DBL_LOWEST) 0 x z)).
  apply (max_fold_inv ps [(x, z)]).
  - split; [|split].
    + intros p [<-|[]]. cbn [fst]. exact (proj2 (deq_not_lt _ _ E1')).
    + exists (x, z). split; [left; reflexivity|]. cbn [fst snd]. split; [exact E1' | symmetry; exact E2].
    + intros p [<-|[]] _. cbn [snd]. rewrite E2. lia.
  - rewrite E2. exact Hz.
  - eapply Forall_impl; [|exact Hps']. intros p [H _]. exact H.
Qed.

Lemma calc_slots records st e :
  Forall (fun r => zipCode r <> 0 /\
                   dfinite (latitude r) = true /\ dfinite (longitude r) = true) records ->
  map_find st (calculateStateExtremes records) = Some e ->
  let lon := map (fun r => (longitude r, zipCode r)) (state_records st records) in
  let lat := map (fun r => (latitude r, zipCode r)) (state_records st records) in
  is_min_slot lon (minLongitude e) (easternmost e) /\
  is_max_slot lon (maxLongitude e) (westernmost e) /\
  is_max_slot lat (maxLatitude e) (northernmost e) /\
  is_min_slot lat (minLatitude e) (southernmost e).
Proof.
  intros Hall Hfind. cbv zeta.
  destruct (calculate_fold records [] eq_refl) as (_ & _ & Hf). cbv zeta in Hf.
  unfold calculateStateExtremes in Hfind. rewrite Hf in Hfind.
  assert (Hsub : Forall (fun r => zipCode r <> 0 /\
                   dfinite (latitude r) = true /\ dfinite (longitude r) = true)
                 (state_records st records))
    by (unfold state_records; apply Forall_forall; intros r Hr;
        apply filter_In in Hr as [Hr _]; rewrite Forall_forall in Hall; auto).
  destruct (state_records st records) as [|r0 rs] eqn:Esr; [discriminate|].
  assert (He : e = fold_left (fun e r => update_extremes r e) (r0 :: rs) default_extremes)
    by (injection Hfind; intros H; symmetry; exact H).
  rewrite He.
  destruct (fold_update_slots (r0 :: rs) default_extremes) as (H1 & H2 & H3 & H4).
  cbv zeta in H1, H2, H3, H4.
  assert (Hne : forall A (f : ZipCodeRecord -> A), map f (r0 :: rs) <> []) by (intros; discriminate).
  split; [|split; [|split]].
  - pose proof (f_equal fst H1) as A; pose proof (f_equal snd H1) as B. cbn [fst snd] in A, B.
    rewrite A, B. apply min_fold_from_default; [apply Hne|].
    rewrite Forall_map. eapply Forall_impl; [|exact Hsub]. simpl. tauto.
  - pose proof (f_equal fst H2) as A; pose proof (f_equal snd H2) as B. cbn [fst snd] in A, B.
    rewrite A, B. apply max_fold_from_default; [apply Hne|].
    rewrite Forall_map. eapply Forall_impl; [|exact Hsub]. simpl. tauto.
  - pose proof (f_equal fst H3) as A; pose proof (f_equal snd H3) as B. cbn [fst snd] in A, B.
    rewrite A, B. apply max_fold_from_default; [apply Hne|].
    rewrite Forall_map. eapply Forall_impl; [|exact Hsub]. simpl. tauto.
  - pose proof (f_equal fst H4) as A; pose proof (f_equal snd H4) as B. cbn [fst snd] in A, B.
    rewrite A, B. apply min_fold_from_default; [apply Hne|].
    rewrite Forall_map. eapply Forall_impl; [|exact Hsub]. simpl. tauto.
Qed.

(** X10: when every code is nonzero and every coordinate is finite (no
    infinity, no NaN), the entry [calculateStateExtremes] keeps for a state
    holds, over that state's records, the least and greatest longitude and
    the greatest and least latitude, each with the smallest code among the
    records attaining it: EASTERNMOST for the least longitude, WESTERNMOST
    for the greatest, NORTHERNMOST for the greatest latitude, SOUTHERNMOST
    for the least. *)
Theorem calculateStateExtremes_slots records st e :
  Forall (fun r => zipCode r <> 0 /\
                   dfinite (latitude r) = true /\ dfinite (longitude r) = true) records ->
  map_find st (calculateStateExtremes records) = Some e ->
  let lon := map (fun r => (longitude r, zipCode r)) (state_records st records) in
  let lat := map (fun r => (latitude r, zipCode r)) (state_records st records) in
  is_min_slot lon (minLongitude e) (easternmost e) /\
  is_max_slot lon (maxLongitude e) (westernmost e) /\
  is_max_slot lat (maxLatitude e) (northernmost e) /\
  is_min_slot lat (minLatitude e) (southernmost e).
Proof. exact (calc_slots records st e). Qed.

(* ------------------------------------------------------------------ *)
(** ** The code columns of the printed table *)

Lemma digit_of_digit_char d : 0 <= d < 10 -> digit_of (digit_char d) = Some d.
Proof.
  intros Hd. unfold digit_of, digit_char.
  rewrite nat_ascii_embedding by lia.
  assert (H1 : (48 <=? 48 + Z.to_nat d)%nat = true) by (apply Nat.leb_le; lia).
  assert (H2 : (48 + Z.to_nat d <=? 57)%nat = true) by (apply Nat.leb_le; lia).
  rewrite H1, H2. cbn [andb]. f_equal. lia.
Qed.

Lemma dec_digits_fuel_read fuel : forall n acc k rest,
  0 <= n < 10 ^ Z.of_nat fuel ->
  read_digits (dec_digits_fuel fuel n ++ rest) acc k =
  read_digits rest (acc * 10 ^ Z.of_nat (List.length (dec_digits_fuel fuel n)) + n)
              (k + List.length (dec_digits_fuel fuel n)).
Proof.
  induction fuel as [|f IH]; intros n acc k rest Hn.
  - simpl in Hn. assert (n = 0) by lia. subst. cbn [dec_digits_fuel app List.length].
    rewrite Nat.add_0_r. f_equal. f_equal. lia.
  - rewrite Nat2Z.inj_succ, Z.pow_succ_r in Hn by lia.
    cbn [dec_digits_fuel].
    destruct (n <? 10) eqn:E.
    + apply Z.ltb_lt in E. cbn [app read_digits List.length].
      rewrite digit_of_digit_char by (apply Z.mod_pos_bound; lia).
      rewrite Z.mod_small by lia. f_equal; [f_equal; lia | lia].
    + apply Z.ltb_ge in E. rewrite <- app_assoc.
      rewrite IH by (split; [apply Z.div_pos; lia | apply Z.div_lt_upper_bound; lia]).
      cbn [app read_digits].
      rewrite digit_of_digit_char by (apply Z.mod_pos_bound; lia).
      rewrite length_app. cbn [List.length].
      rewrite Nat2Z.inj_add, Z.pow_add_r by lia.
      f_equal; [|lia].
      pose proof (Z.div_mod n 10 ltac:(lia)). rewrite Z.pow_1_r. lia.
Qed.

Lemma dec_digits_fuel_length fuel : forall n m,
  (1 <= m)%nat -> 0 <= n < 10 ^ Z.of_nat m ->
  (1 <= List.length (dec_digits_fuel (S fuel) n) <= m)%nat.
Proof.
  induction fuel as [|f IH]; intros n m Hm Hn.
  - cbn [dec_digits_fuel]. destruct (n <? 10); cbn [app List.length]; lia.
  - change (dec_digits_fuel (S (S f)) n) with
      ((if n <? 10 then [] else dec_digits_fuel (S f) (n / 10)) ++ [digit_char (n mod 10)]).
    destruct (n <? 10) eqn:E; [cbn [app List.length]; lia|].
    apply Z.ltb_ge in E. rewrite length_app. cbn [List.length].
    destruct m as [|[|m]]; [lia| |].
    + simpl in Hn. lia.
    + assert (Hq : 0 <= n / 10 < 10 ^ Z.of_nat (S m)).
      { split; [apply Z.div_pos; lia|]. apply Z.div_lt_upper_bound; [lia|].
        rewrite <- Z.pow_succ_r by lia. rewrite <- Nat2Z.inj_succ. exact (proj2 Hn). }
      specialize (IH (n / 10) (S m) ltac:(lia) Hq). lia.
Qed.

Lemma dec_digits_fuel_enough n : 0 <= n -> 0 <= n < 10 ^ Z.of_nat (S (Z.to_nat (Z.log2 n))).
Proof.
  intros Hn. split; [exact Hn|].
  rewrite Nat2Z.inj_succ, Z2Nat.id by apply Z.log2_nonneg.
  destruct (Z.eq_dec n 0) as [->|Hn0]; [reflexivity|].
  destruct (Z.log2_spec n ltac:(lia)) as [_ Hlt].
  eapply Z.lt_le_trans; [exact Hlt|].
  apply Z.pow_le_mono_l. lia.
Qed.

Lemma read_digits_zeros m : forall acc k rest,
  read_digits (repeat zero_c m ++ rest) acc k = read_digits rest (acc * 10 ^ Z.of_nat m) (k + m).
Proof.
  induction m as [|m IH]; intros acc k rest.
  - cbn [repeat app]. rewrite Z.mul_1_r, Nat.add_0_r. reflexivity.
  - cbn [repeat app read_digits].
    assert (Hz : digit_of zero_c = Some 0) by reflexivity. rewrite Hz, IH.
    rewrite Nat2Z.inj_succ, Z.pow_succ_r by lia. f_equal; nia.
Qed.

Lemma dec_digits_fuel_irrel f1 : forall f2 n,
  0 <= n < 10 ^ Z.of_nat (S f1) -> 0 <= n < 10 ^ Z.of_nat (S f2) ->
  dec_digits_fuel (S f1) n = dec_digits_fuel (S f2) n.
Proof.
  induction f1 as [|f1 IH]; intros f2 n H1 H2.
  - simpl in H1. assert (E : (n <? 10) = true) by (apply Z.ltb_lt; lia).
    cbn [dec_digits_fuel]. rewrite E. reflexivity.
  - destruct (n <? 10) eqn:E.
    + destruct f2; cbn [dec_digits_fuel]; rewrite E; reflexivity.
    + pose proof E as E'. apply Z.ltb_ge in E'.
      destruct f2 as [|f2]; [simpl in H2; lia|].
      change (dec_digits_fuel (S (S f1)) n) with
        ((if n <? 10 then [] else dec_digits_fuel (S f1) (n / 10)) ++ [digit_char (n mod 10)]).
      change (dec_digits_fuel (S (S f2)) n) with
        ((if n <? 10 then [] else dec_digits_fuel (S f2) (n / 10)) ++ [digit_char (n mod 10)]).
      rewrite E.
      rewrite (IH f2 (n / 10)); [reflexivity| |];
      (split; [apply Z.div_pos; lia|]; apply Z.div_lt_upper_bound; [lia|];
       rewrite <- Z.pow_succ_r by lia; rewrite <- Nat2Z.inj_succ; lia).
Qed.

Lemma dec_digits_times10 z : 1 <= z -> dec_digits (10 * z) = dec_digits z ++ [zero_c].
Proof.
  intros Hz. unfold dec_digits.
  pose proof (dec_digits_fuel_enough (10 * z) ltac:(lia)) as H10.
  pose proof (dec_digits_fuel_enough z ltac:(lia)) as H1.
  revert H10. generalize (Z.to_nat (Z.log2 (10 * z))) as F. intros F H10.
  destruct F as [|F].
  - change (10 ^ Z.of_nat 1) with 10 in H10. lia.
  - cbn [dec_digits_fuel].
    assert (E : (10 * z <? 10) = false) by (apply Z.ltb_ge; lia). rewrite E.
    rewrite Z.mul_comm, Z.div_mul, Z.mod_mul by lia.
    f_equal. apply dec_digits_fuel_irrel; [|exact H1].
    split; [lia|]. rewrite Nat2Z.inj_succ, Z.pow_succ_r in H10 by lia. lia.
Qed.

Lemma dec_digits_fuel_all_digits fuel : forall n, 0 <= n ->
  Forall (fun c => digit_of c <> None) (dec_digits_fuel fuel n).
Proof.
  induction fuel as [|f IH]; intros n Hn; cbn [dec_digits_fuel]; [constructor|].
  apply Forall_app. split.
  - destruct (n <? 10); [constructor|]. apply IH. apply Z.div_pos; lia.
  - constructor; [|constructor].
    rewrite digit_of_digit_char by (apply Z.mod_pos_bound; lia). discriminate.
Qed.

Lemma digit_head_plain c l : digit_of c <> None ->
  skip_space (c :: l) = c :: l /\ read_sign (c :: l) = (false, c :: l).
Proof.
  intros H. unfold digit_of in H.
  destruct ((48 <=? nat_of_ascii c)%nat && (nat_of_ascii c <=? 57)%nat) eqn:E; [|congruence].
  apply andb_true_iff in E as [E1 E2]. apply Nat.leb_le in E1, E2.
  split.
  - cbn [skip_space]. unfold is_c_space.
    assert (A : (nat_of_ascii c =? 32)%nat = false) by (apply Nat.eqb_neq; lia).
    assert (B : (nat_of_ascii c <=? 13)%nat = false) by (apply Nat.leb_gt; lia).
    rewrite A, B, andb_false_r. reflexivity.
  - cbn [read_sign].
    assert (A : (nat_of_ascii c =? 45)%nat = false) by (apply Nat.eqb_neq; lia).
    assert (B : (nat_of_ascii c =? 43)%nat = false) by (apply Nat.eqb_neq; lia).
    rewrite A, B. reflexivity.
Qed.

Lemma int_text_nonneg z : 0 <= z -> int_text z = dec_digits z.
Proof.
  intros H. unfold int_text. destruct (z <? 0) eqn:E; [apply Z.ltb_lt in E; lia | reflexivity].
Qed.

Lemma int_text_length z : 0 <= z < 100000 -> (1 <= List.length (int_text z) <= 5)%nat.
Proof.
  intros H. rewrite int_text_nonneg by lia. unfold dec_digits.
  apply dec_digits_fuel_length; [lia|]. exact H.
Qed.

Lemma zip_field_stoi z : 0 <= z < 100000 ->
  stoi (string_of_list_ascii (zip_field z)) =
  Some (z * 10 ^ Z.of_nat (5 - List.length (int_text z))).
Proof.
  intros Hz. pose proof (int_text_length z Hz) as Hlen.
  unfold stoi, zip_field, setw_left. rewrite list_ascii_of_string_of_list_ascii.
  rewrite int_text_nonneg in Hlen |- * by lia. unfold dec_digits in Hlen |- *.
  set (F := S (Z.to_nat (Z.log2 z))) in *.
  pose proof (dec_digits_fuel_all_digits F z ltac:(lia)) as Hd.
  pose proof (dec_digits_fuel_read F z 0 0 (repeat zero_c (5 - List.length (dec_digits_fuel F z))))
    as Hr.
  specialize (Hr (dec_digits_fuel_enough z ltac:(lia))).
  destruct (dec_digits_fuel F z) as [|c l] eqn:ED; [cbn in Hlen; lia|].
  inversion Hd as [|? ? Hc _]; subst.
  destruct (digit_head_plain c (l ++ repeat zero_c (5 - List.length (c :: l))) Hc) as [Hs Hsg].
  rewrite <- app_comm_cons, Hs, Hsg. cbv beta iota zeta.
  rewrite app_comm_cons, Hr.
  rewrite <- (app_nil_r (repeat zero_c _)), read_digits_zeros. cbn [read_digits].
  set (len := List.length (c :: l)) in *.
  assert (Hnd : (0 + len + (5 - len) =? 0)%nat = false) by (apply Nat.eqb_neq; lia).
  rewrite Hnd.
  assert (Hp : 10 ^ Z.of_nat (5 - len) <= 10 ^ 4) by (apply Z.pow_le_mono_r; lia).
  assert (Hp0 : 0 < 10 ^ Z.of_nat (5 - len)) by (apply Z.pow_pos_nonneg; lia).
  replace ((0 * 10 ^ Z.of_nat len + z) * 10 ^ Z.of_nat (5 - len))
    with (z * 10 ^ Z.of_nat (5 - len)) by ring.
  assert (R : (INT_MIN <=? z * 10 ^ Z.of_nat (5 - len)) && (z * 10 ^ Z.of_nat (5 - len) <=? INT_MAX) = true).
  { unfold INT_MIN, INT_MAX. apply andb_true_iff. split; [apply Z.leb_le | apply Z.leb_le]; nia. }
  rewrite R. reflexivity.
Qed.

Lemma setw_left_length w fill s :
  (List.length s <= w)%nat -> List.length (setw_left w fill s) = w.
Proof. intros H. unfold setw_left. rewrite length_app, repeat_length. lia. Qed.

Lemma zip_field_length z : 0 <= z < 100000 -> List.length (zip_field z) = 5%nat.
Proof. intros H. apply setw_left_length. pose proof (int_text_length z H). lia. Qed.

Lemma firstn_skipn_middle {A} (l1 l2 l3 : list A) :
  firstn (List.length l2) (skipn (List.length l1) (l1 ++ l2 ++ l3)) = l2.
Proof.
  induction l1 as [|x l1 IH]; cbn [List.length skipn app]; [|exact IH].
  induction l2 as [|y l2 IH2]; [reflexivity|]. cbn. f_equal. exact IH2.
Qed.

(** X11: printing a ZIP code in the table (setfill('0'), setw(5), under
    the earlier [cout << left]) puts the zeros after the digits: for a code
    [z] with 0 <= z < 100000, the five characters printed read back with
    [stoi] as z times ten to the power of the number of missing digits, not
    as [z]; a code of one to four digits [z] and the code [10 * z] are
    printed the same. *)
Theorem zip_field_trailing_zeros :
  (forall z, 0 <= z < 100000 ->
     List.length (zip_field z) = 5%nat /\
     stoi (string_of_list_ascii (zip_field z)) =
       Some (z * 10 ^ Z.of_nat (5 - List.length (int_text z)))) /\
  (forall z, 1 <= z < 10000 -> zip_field (10 * z) = zip_field z).
Proof.
  split.
  - intros z Hz. split; [apply zip_field_length; exact Hz | apply zip_field_stoi; exact Hz].
  - intros z Hz. unfold zip_field, setw_left.
    rewrite !int_text_nonneg by lia. rewrite dec_digits_times10 by lia.
    pose proof (int_text_length z ltac:(lia)) as Hl. rewrite int_text_nonneg in Hl by lia.
    assert (Hl10 : (List.length (dec_digits z) <= 4)%nat).
    { pose proof (int_text_length (10 * z) ltac:(lia)) as H.
      rewrite int_text_nonneg, dec_digits_times10, length_app in H by lia.
      cbn [List.length] in H. lia. }
    rewrite length_app. cbn [List.length]. rewrite <- app_assoc.
    f_equal. replace (5 - List.length (dec_digits z))%nat
      with (S (5 - (List.length (dec_digits z) + 1)))%nat by lia.
    reflexivity.
Qed.

(** X12: a row of the printed table, for a state of at most eight
    characters and four codes in [0, 99999], has 58 characters: the state
    padded with spaces to eight, then each code's five-character field at
    columns 8, 23, 38 and 53, with ten spaces between fields. *)
Theorem table_row_layout st e :
  (List.length (list_ascii_of_string st) <= 8)%nat ->
  0 <= easternmost e < 100000 -> 0 <= westernmost e < 100000 ->
  0 <= northernmost e < 100000 -> 0 <= southernmost e < 100000 ->
  let row := list_ascii_of_string (table_row st e) in
  List.length row = 58%nat /\
  firstn 8 row = setw_left 8 space_c (list_ascii_of_string st) /\
  firstn 5 (skipn 8 row) = zip_field (easternmost e) /\
  firstn 5 (skipn 23 row) = zip_field (westernmost e) /\
  firstn 5 (skipn 38 row) = zip_field (northernmost e) /\
  firstn 5 (skipn 53 row) = zip_field (southernmost e) /\
  firstn 10 (skipn 13 row) = repeat space_c 10 /\
  firstn 10 (skipn 28 row) = repeat space_c 10 /\
  firstn 10 (skipn 43 row) = repeat space_c 10.
Proof.
  intros Hst He Hw Hn Hs. cbv zeta. unfold table_row.
  rewrite list_ascii_of_string_of_list_ascii.
  pose proof (setw_left_length 8 space_c _ Hst) as L0.
  pose proof (zip_field_length _ He) as L1. pose proof (zip_field_length _ Hw) as L2.
  pose proof (zip_field_length _ Hn) as L3. pose proof (zip_field_length _ Hs) as L4.
  assert (Lg : List.length gap = 10%nat) by reflexivity.
  assert (Eg : gap = repeat space_c 10) by reflexivity.
  set (P := setw_left 8 space_c (list_ascii_of_string st)) in *.
  set (F1 := zip_field (easternmost e)) in *. set (F2 := zip_field (westernmost e)) in *.
  set (F3 := zip_field (northernmost e)) in *. set (F4 := zip_field (southernmost e)) in *.
  split; [rewrite !length_app; lia|].
  split; [rewrite <- L0, firstn_app, firstn_all, Nat.sub_diag, firstn_O, app_nil_r; reflexivity|].
  split; [rewrite <- L0, <- L1; apply firstn_skipn_middle|].
  split.
  { replace 23%nat with (List.length (P ++ F1 ++ gap)) by (rewrite !length_app; lia).
    rewrite <- L2.
    replace (P ++ F1 ++ gap ++ F2 ++ gap ++ F3 ++ gap ++ F4)
      with ((P ++ F1 ++ gap) ++ F2 ++ (gap ++ F3 ++ gap ++ F4)) by (rewrite <- !app_assoc; reflexivity).
    apply firstn_skipn_middle. }
  split.
  { replace 38%nat with (List.length (P ++ F1 ++ gap ++ F2 ++ gap)) by (rewrite !length_app; lia).
    rewrite <- L3.
    replace (P ++ F1 ++ gap ++ F2 ++ gap ++ F3 ++ gap ++ F4)
      with ((P ++ F1 ++ gap ++ F2 ++ gap) ++ F3 ++ (gap ++ F4)) by (rewrite <- !app_assoc; reflexivity).
    apply firstn_skipn_middle. }
  split.
  { replace 53%nat with (List.length (P ++ F1 ++ gap ++ F2 ++ gap ++ F3 ++ gap)) by (rewrite !length_app; lia).
    rewrite <- L4.
    replace (P ++ F1 ++ gap ++ F2 ++ gap ++ F3 ++ gap ++ F4)
      with ((P ++ F1 ++ gap ++ F2 ++ gap ++ F3 ++ gap) ++ F4 ++ []) by (rewrite <- !app_assoc, app_nil_r; reflexivity).
    apply firstn_skipn_middle. }
  split.
  { replace 13%nat with (List.length (P ++ F1)) by (rewrite !length_app; lia).
    rewrite <- Eg, <- Lg.
    replace (P ++ F1 ++ gap ++ F2 ++ gap ++ F3 ++ gap ++ F4)
      with ((P ++ F1) ++ gap ++ (F2 ++ gap ++ F3 ++ gap ++ F4)) by (rewrite <- !app_assoc; reflexivity).
    apply firstn_skipn_middle. }
  split.
  { replace 28%nat with (List.length (P ++ F1 ++ gap ++ F2)) by (rewrite !length_app; lia).
    rewrite <- Eg, <- Lg.
    replace (P ++ F1 ++ gap ++ F2 ++ gap ++ F3 ++ gap ++ F4)
      with ((P ++ F1 ++ gap ++ F2) ++ gap ++ (F3 ++ gap ++ F4)) by (rewrite <- !app_assoc; reflexivity).
    apply firstn_skipn_middle. }
  { replace 43%nat with (List.length (P ++ F1 ++ gap ++ F2 ++ gap ++ F3)) by (rewrite !length_app; lia).
    rewrite <- Eg, <- Lg.
    replace (P ++ F1 ++ gap ++ F2 ++ gap ++ F3 ++ gap ++ F4)
      with ((P ++ F1 ++ gap ++ F2 ++ gap ++ F3) ++ gap ++ F4) by (rewrite <- !app_assoc; reflexivity).
    apply firstn_skipn_middle. }
Qed.

(* ------------------------------------------------------------------ *)
(** ** The exit status of main from the file's lines *)

(** X13: with one argument, [main]'s exit status is decided by the file's
    lines alone: 2 when the file cannot be opened or is empty; otherwise
    3 when the lines after the header yield no record before the first
    malformed non-blank line (for instance when the first non-blank line
    after the header is malformed), and 0 when they yield one. *)
Theorem main_exit_by_content fs prog path :
  main fs [prog; path] =
  match fs path with
  | Some (_ :: t) => match expected_records t with [] => 3 | _ :: _ => 0 end
  | _ => 2
  end.
Proof.
  rewrite main_two_args. unfold open.
  destruct (fs path) as [[|h t]|]; cbv beta iota zeta; [reflexivity| |reflexivity].
  cbn [getline failbit remaining contents].
  cbv beta iota zeta. cbn [negb].
  rewrite (gather_result_expected (mkBuffer (Some (mkStream (h :: t) t false)) path true 0)
             (mkStream (h :: t) t false) eq_refl).
  reflexivity.
Qed.

(* ------------------------------------------------------------------ *)
(** ** Order of the records *)

Lemma deq_refl_both a b : deq a b = true -> deq a a = true /\ deq b b = true.
Proof.
  intros H. assert (H' : deq b a = true) by (rewrite deq_sym; exact H).
  split; [exact (deq_trans _ _ _ H H') | exact (deq_trans _ _ _ H' H)].
Qed.

Lemma min_slot_unique ps ps' v c v' c' :
  (forall p, In p ps <-> In p ps') ->
  is_min_slot ps v c -> is_min_slot ps' v' c' -> deq v v' = true /\ c = c'.
Proof.
  intros Heq (A1 & (w1 & W1 & W1v & W1c) & M1) (A2 & (w2 & W2 & W2v & W2c) & M2).
  assert (Hvv : deq v v' = true).
  { destruct (dlt_total v v' (proj2 (deq_refl_both _ _ W1v)) (proj2 (deq_refl_both _ _ W2v)))
      as [H|[H|H]]; [exfalso| exact H |exfalso].
    - pose proof (dlt_deq_l _ _ _ W1v H) as H'. rewrite (A2 w1 (proj1 (Heq w1) W1)) in H'. discriminate.
    - pose proof (dlt_deq_l _ _ _ W2v H) as H'. rewrite (A1 w2 (proj2 (Heq w2) W2)) in H'. discriminate. }
  split; [exact Hvv|].
  assert (H1 : c' <= c).
  { rewrite <- W1c. apply M2; [apply Heq, W1|]. exact (deq_trans _ _ _ W1v Hvv). }
  assert (H2 : c <= c').
  { rewrite <- W2c. apply M1; [apply Heq, W2|].
    apply (deq_trans _ _ _ W2v). rewrite deq_sym. exact Hvv. }
  lia.
Qed.

Lemma max_slot_unique ps ps' v c v' c' :
  (forall p, In p ps <-> In p ps') ->
  is_max_slot ps v c -> is_max_slot ps' v' c' -> deq v v' = true /\ c = c'.
Proof.
  intros Heq (A1 & (w1 & W1 & W1v & W1c) & M1) (A2 & (w2 & W2 & W2v & W2c) & M2).
  assert (Hvv : deq v v' = true).
  { destruct (dlt_total v v' (proj2 (deq_refl_both _ _ W1v)) (proj2 (deq_refl_both _ _ W2v)))
      as [H|[H|H]]; [exfalso| exact H |exfalso].
    - rewrite deq_sym in W2v. pose proof (dlt_deq_r _ _ _ H W2v) as H'.
      rewrite (A1 w2 (proj2 (Heq w2) W2)) in H'. discriminate.
    - rewrite deq_sym in W1v. pose proof (dlt_deq_r _ _ _ H W1v) as H'.
      rewrite (A2 w1 (proj1 (Heq w1) W1)) in H'. discriminate. }
  split; [exact Hvv|].
  assert (H1 : c' <= c).
  { rewrite <- W1c. apply M2; [apply Heq, W1|]. exact (deq_trans _ _ _ W1v Hvv). }
  assert (H2 : c <= c').
  { rewrite <- W2c. apply M1; [apply Heq, W2|].
    apply (deq_trans _ _ _ W2v). rewrite deq_sym. exact Hvv. }
  lia.
Qed.

Lemma state_records_same_set records records' st :
  (forall r, In r records <-> In r records') ->
  forall r, In r (state_records st records) <-> In r (state_records st records').
Proof.
  intros H r. unfold state_records. rewrite !filter_In, H. reflexivity.
Qed.

Lemma map_same_set {A B} (f : A -> B) l l' :
  (forall x, In x l <-> In x l') -> forall y, In y (map f l) <-> In y (map f l').
Proof.
  intros H y. rewrite !in_map_iff. split; intros (x & Hx & Hin); exists x; split; auto; apply H; auto.
Qed.

(** X14: when every code is nonzero and every coordinate is finite (no
    infinity, no NaN), the result of [calculateStateExtremes] does not depend
    on the order of the records (nor on repeated records): two record lists
    with the same elements give entries for the same states, with the same
    four codes and coordinates equal under [==]. *)
Theorem calculateStateExtremes_order_independent records records' st :
  (forall r, In r records <-> In r records') ->
  Forall (fun r => zipCode r <> 0 /\
                   dfinite (latitude r) = true /\ dfinite (longitude r) = true) records ->
  (map_find st (calculateStateExtremes records) = None <->
   map_find st (calculateStateExtremes records') = None) /\
  (forall e e', map_find st (calculateStateExtremes records) = Some e ->
     map_find st (calculateStateExtremes records') = Some e' ->
     easternmost e = easternmost e' /\ westernmost e = westernmost e' /\
     northernmost e = northernmost e' /\ southernmost e = southernmost e' /\
     deq (minLongitude e) (minLongitude e') = true /\ deq (maxLongitude e) (maxLongitude e') = true /\
     deq (maxLatitude e) (maxLatitude e') = true /\ deq (minLatitude e) (minLatitude e') = true).
Proof.
  intros Hset Hall.
  assert (Hall' : Forall (fun r => zipCode r <> 0 /\
                   dfinite (latitude r) = true /\ dfinite (longitude r) = true) records').
  { rewrite Forall_forall in Hall |- *. intros r Hr. apply Hall, Hset, Hr. }
  pose proof (state_records_same_set records records' st Hset) as Hsr.
  split.
  - destruct (calculate_fold records [] eq_refl) as (_ & _ & F1).
    destruct (calculate_fold records' [] eq_refl) as (_ & _ & F2).
    unfold calculateStateExtremes. rewrite F1, F2.
    destruct (state_records st records) as [|r rs] eqn:E1;
      destruct (state_records st records') as [|r' rs'] eqn:E2;
      try (split; reflexivity); try (split; discriminate).
    + exfalso. apply (proj2 (Hsr r')). left. reflexivity.
    + exfalso. apply (proj1 (Hsr r)). left. reflexivity.
  - intros e e' He He'.
    destruct (calc_slots records st e Hall He) as (S1 & S2 & S3 & S4).
    destruct (calc_slots records' st e' Hall' He') as (T1 & T2 & T3 & T4).
    pose proof (map_same_set (fun r => (longitude r, zipCode r)) _ _ Hsr) as Hlon.
    pose proof (map_same_set (fun r => (latitude r, zipCode r)) _ _ Hsr) as Hlat.
    destruct (min_slot_unique _ _ _ _ _ _ Hlon S1 T1) as [Q1 C1].
    destruct (max_slot_unique _ _ _ _ _ _ Hlon S2 T2) as [Q2 C2].
    destruct (max_slot_unique _ _ _ _ _ _ Hlat S3 T3) as [Q3 C3].
    destruct (min_slot_unique _ _ _ _ _ _ Hlat S4 T4) as [Q4 C4].
    repeat split; assumption.
Qed.

(* ------------------------------------------------------------------ *)
(** ** The range of the coordinates parseLine stores *)









(* ================================================================== *)
(** * Witnesses of the further properties *)

Lemma gatherAllRecords_result_witness :
  fst (gatherAllRecords (opened "data.csv" good_file)) = expected_records (tl good_file).
Proof.
  apply (gatherAllRecords_result (opened "data.csv" good_file)
           (mkStream good_file (tl good_file) false)).
  vm_compute. reflexivity.
Defined.

Lemma gatherAllRecords_all_valid_witness :
  fst (gatherAllRecords (opened "data.csv" good_file)) =
  map (fun l => snd (parseLine l default_record)) (filter (fun l => negb (blank l)) [good_line]).
Proof.
  apply (gatherAllRecords_all_valid (opened "data.csv" good_file)
           (mkStream good_file [good_line] false)).
  - vm_compute. reflexivity.
  - constructor; [|constructor]. intros _. vm_compute. reflexivity.
Defined.

Lemma gatherAllRecords_final_state_witness :
  snd (gatherAllRecords (opened "data.csv" good_file)) =
  mkBuffer (Some (mkStream good_file [good_line] false)) "data.csv" true 0.
Proof.
  apply (gatherAllRecords_final_state (opened "data.csv" good_file)
           (mkStream good_file [good_line] false) "zip,place,state,county,lat,lon" [good_line]);
    vm_compute; reflexivity.
Defined.

Lemma trim_spec_witness :
  exists pre suf,
    list_ascii_of_string " NY " = pre ++ list_ascii_of_string (trim " NY ") ++ suf /\
    Forall (fun c => is_trim_ws c = true) pre /\
    Forall (fun c => is_trim_ws c = true) suf /\
    (forall c rest, list_ascii_of_string (trim " NY ") = c :: rest -> is_trim_ws c = false) /\
    (forall rest c, list_ascii_of_string (trim " NY ") = rest ++ [c] -> is_trim_ws c = false).
Proof. apply (trim_spec " NY "). Defined.

Lemma parseLine_failure_effects_witness :
  parseLine "7,A,NY,B,40" good_record = (false, good_record) /\
  parseLine "501, Holtsville ,NY,Suffolk,north,-73.04" good_record =
    (false, mkRecord 501 "Holtsville" "NY" "Suffolk" (latitude good_record) (longitude good_record)) /\
  parseLine "501,Holtsville,NY,Suffolk,40.81,west" good_record =
    (false, mkRecord 501 "Holtsville" "NY" "Suffolk" (Fin (5743496899780936 # 140737488355328)) (longitude good_record)).
Proof.
  split; [|split].
  - apply (proj1 (parseLine_failure_effects "7,A,NY,B,40" good_record)).
    left. vm_compute. discriminate.
  - apply (proj1 (proj2 (parseLine_failure_effects "501, Holtsville ,NY,Suffolk,north,-73.04" good_record)) 501);
      vm_compute; reflexivity.
  - apply (proj2 (proj2 (parseLine_failure_effects "501,Holtsville,NY,Suffolk,40.81,west" good_record)) 501 (Fin (5743496899780936 # 140737488355328)));
      vm_compute; reflexivity.
Defined.

Lemma calculateStateExtremes_slots_witness :
  let recs := [mkRecord 10023 "A" "NY" "B" (Fin 41) (Fin (-74)); mkRecord 10005 "C" "NY" "D" (Fin 40) (Fin (-74));
               mkRecord 6001 "E" "CT" "F" (Fin 42) (Fin (-72))] in
  let e := mkExtremes 10005 10005 10023 10005 (Fin (-74)) (Fin (-74)) (Fin 41) (Fin 40) in
  let lon := map (fun r => (longitude r, zipCode r)) (state_records "NY" recs) in
  let lat := map (fun r => (latitude r, zipCode r)) (state_records "NY" recs) in
  is_min_slot lon (minLongitude e) (easternmost e) /\
  is_max_slot lon (maxLongitude e) (westernmost e) /\
  is_max_slot lat (maxLatitude e) (northernmost e) /\
  is_min_slot lat (minLatitude e) (southernmost e).
Proof.
  apply (calculateStateExtremes_slots
           [mkRecord 10023 "A" "NY" "B" (Fin 41) (Fin (-74)); mkRecord 10005 "C" "NY" "D" (Fin 40) (Fin (-74));
            mkRecord 6001 "E" "CT" "F" (Fin 42) (Fin (-72))] "NY").
  - repeat constructor; cbn [zipCode latitude longitude];
      try discriminate; vm_compute; reflexivity.
  - vm_compute. reflexivity.
Defined.

Lemma calculateStateExtremes_order_independent_witness :
  let recs := [mkRecord 10023 "A" "NY" "B" (Fin 41) (Fin (-74)); mkRecord 10005 "C" "NY" "D" (Fin 40) (Fin (-74))] in
  let recs' := [mkRecord 10005 "C" "NY" "D" (Fin 40) (Fin (-74)); mkRecord 10023 "A" "NY" "B" (Fin 41) (Fin (-74))] in
  (map_find "NY" (calculateStateExtremes recs) = None <->
   map_find "NY" (calculateStateExtremes recs') = None) /\
  (forall e e', map_find "NY" (calculateStateExtremes recs) = Some e ->
     map_find "NY" (calculateStateExtremes recs') = Some e' ->
     easternmost e = easternmost e' /\ westernmost e = westernmost e' /\
     northernmost e = northernmost e' /\ southernmost e = southernmost e' /\
     deq (minLongitude e) (minLongitude e') = true /\ deq (maxLongitude e) (maxLongitude e') = true /\
     deq (maxLatitude e) (maxLatitude e') = true /\ deq (minLatitude e) (minLatitude e') = true).
Proof.
  apply calculateStateExtremes_order_independent.
  - intros r. simpl. tauto.
  - repeat constructor; cbn [zipCode latitude longitude];
      try discriminate; vm_compute; reflexivity.
Defined.

Lemma zip_field_trailing_zeros_witness :
  stoi (string_of_list_ascii (zip_field 501)) = Some 50100 /\ zip_field 5010 = zip_field 501.
Proof.
  destruct zip_field_trailing_zeros as [H1 H2]. split.
  - rewrite (proj2 (H1 501 ltac:(lia))). vm_compute. reflexivity.
  - apply (H2 501). lia.
Defined.

Lemma table_row_layout_witness :
  let row := list_ascii_of_string (table_row "NY" (mkExtremes 501 10001 0 99999 (Fin 0) (Fin 0) (Fin 0) (Fin 0))) in
  List.length row = 58%nat /\
  firstn 8 row = setw_left 8 space_c (list_ascii_of_string "NY") /\
  firstn 5 (skipn 8 row) = zip_field 501 /\
  firstn 5 (skipn 23 row) = zip_field 10001 /\
  firstn 5 (skipn 38 row) = zip_field 0 /\
  firstn 5 (skipn 53 row) = zip_field 99999 /\
  firstn 10 (skipn 13 row) = repeat space_c 10 /\
  firstn 10 (skipn 28 row) = repeat space_c 10 /\
  firstn 10 (skipn 43 row) = repeat space_c 10.
Proof.
  apply (table_row_layout "NY" (mkExtremes 501 10001 0 99999 (Fin 0) (Fin 0) (Fin 0) (Fin 0)));
    [vm_compute; lia | cbn; lia | cbn; lia | cbn; lia | cbn; lia].
Defined.

